(** * Animated code example: tokenizer, delay policy and playback engine

    A shallow embedding of [src/src/index.tsx]: the script model, the
    tokenizer [stepsForText], the delay policy [lookupDelays] and the
    playback loop [runScript], followed by the properties proved of them. *)

From Stdlib Require Import String Ascii.
From Stdlib Require Import List ZArith NArith Lia Bool PeanoNat.
Import ListNotations.

(** ** JavaScript strings

    A JS string is a sequence of UTF-16 code units; [s.length] counts code
    units and [s[i]] is the one-unit string at index [i], or [undefined]
    out of range.  [undefined] is [None] throughout. *)

Abbreviation codeUnit := N.
Definition jsstring := list codeUnit.

Definition LF : codeUnit := 10%N.       (* '\n' *)
Definition SPACE : codeUnit := 32%N.    (* ' '  *)
Definition LPAREN : codeUnit := 40%N.   (* '('  *)
Definition RPAREN : codeUnit := 41%N.   (* ')'  *)
Definition LAQUO : codeUnit := 171%N.   (* U+00AB, left default delimiter *)
Definition RAQUO : codeUnit := 187%N.   (* U+00BB, right default delimiter *)

(** An ASCII literal as a JS string. *)
Definition js (s : string) : jsstring :=
  map N_of_ascii (list_ascii_of_string s).

Fixpoint str_eqb (a b : jsstring) : bool :=
  match a, b with
  | [], [] => true
  | x :: a', y :: b' => N.eqb x y && str_eqb a' b'
  | _, _ => false
  end.

(** [a === b] on values that are a string or [undefined]. *)
Definition strictEq (a b : option jsstring) : bool :=
  match a, b with
  | None, None => true
  | Some x, Some y => str_eqb x y
  | _, _ => false
  end.

(** [text[i]] *)
Definition charAt (text : jsstring) (i : nat) : option jsstring :=
  match nth_error text i with
  | Some c => Some [c]
  | None => None
  end.

(** [consumed += v]: string concatenation, where [undefined] is coerced to
    the string "undefined". *)
Definition appendValue (consumed : jsstring) (v : option jsstring) : jsstring :=
  consumed ++ match v with
              | Some s => s
              | None => js "undefined"
              end.

(** ** JavaScript numbers

    A JS number is an IEEE 754 double.  Every integer below 2^53 in size is
    a double; a larger one is a double when it fits 53 significant bits.
    [roundDouble z] is the double nearest to the integer [z], the one with
    the even significand when two are as near.  [a + b] on integers is the
    exact sum rounded so.  (The sums of the playback loop have 1 or a string
    length as one operand, so they stay far from the largest double.) *)

Definition roundDouble (z : Z) : Z :=
  let a := Z.abs z in
  if (a <? 2 ^ 53)%Z then z
  else
    let e := (Z.log2 a - 52)%Z in
    let q := (a / 2 ^ e)%Z in
    let r := (a mod 2 ^ e)%Z in
    let half := (2 ^ (e - 1))%Z in
    let q' := if (r <? half)%Z then q
              else if (half <? r)%Z then (q + 1)%Z
              else if Z.even q then q else (q + 1)%Z in
    (Z.sgn z * (q' * 2 ^ e))%Z.

(** [a + b] *)
Definition jsAdd (a b : Z) : Z := roundDouble (a + b).

(** ** Script model *)

Inductive StepTarget := EDITOR | REPL | BROWSER.

(** [DeltaStepKind] is [DemoStepKind] without [SLEEP]. *)
Inductive DeltaStepKind :=
| INSERT_TEXT
| INSERT_NEWLINE
| INSERT_PASTED_TEXT
| SET_BROWSER_CONTENT.

(** The numbers of a script are line numbers, column numbers and
    milliseconds: integers, held as the integer they are (a script has no
    use for NaN, an infinity or a fraction there); [jsAdd] is their
    addition.  An optional field that is absent and one that holds
    [undefined] both read as [None]. *)
Record DeltaStep := mkDeltaStep {
  kind : DeltaStepKind;
  target : StepTarget;
  startLineNumber : option Z;
  startColumnIndex : option Z;
  value : jsstring
}.

(** [DeltaStep | SleepStep]; a [SleepStep] is the step of kind [SLEEP]. *)
Inductive DemoScriptStep :=
| Delta (step : DeltaStep)
| Sleep (duration : Z).

Record DemoScript := mkDemoScript {
  steps : list DemoScriptStep;
  initialBrowserContent : jsstring;
  initialReplContent : jsstring;
  initialEditorContent : jsstring;
  editorLanguage : jsstring
}.

Definition StepTarget_eqb (a b : StepTarget) : bool :=
  match a, b with
  | EDITOR, EDITOR | REPL, REPL | BROWSER, BROWSER => true
  | _, _ => false
  end.

Definition kind_eqb (a b : DeltaStepKind) : bool :=
  match a, b with
  | INSERT_TEXT, INSERT_TEXT
  | INSERT_NEWLINE, INSERT_NEWLINE
  | INSERT_PASTED_TEXT, INSERT_PASTED_TEXT
  | SET_BROWSER_CONTENT, SET_BROWSER_CONTENT => true
  | _, _ => false
  end.

(** ** The tokenizer [stepsForText] *)

Inductive Error :=
| UnterminatedPaste    (* Error("Unterminated paste") *)
| NewlineInPaste.      (* Error('Newline not allowed in paste') *)

Definition message (e : Error) : string :=
  match e with
  | UnterminatedPaste => "Unterminated paste"
  | NewlineInPaste => "Newline not allowed in paste"
  end.

(** What a call does: return, throw, or exhaust the fuel given to its
    [while] loops. *)
Inductive outcome (A : Type) :=
| Returned (a : A)
| Thrown (e : Error)
| OutOfFuel.
Arguments Returned {A} a.
Arguments Thrown {A} e.
Arguments OutOfFuel {A}.

Module Tokenizer.

(** The two variables the closures of [stepsForText] mutate. *)
Record Scanner := mkScanner {
  currentIndex : nat;
  produced : list DeltaStep     (* the local array [steps] *)
}.

Definition M (A : Type) := Scanner -> outcome (A * Scanner).

Definition ret {A} (a : A) : M A := fun s => Returned (a, s).

Definition bind {A B} (m : M A) (k : A -> M B) : M B :=
  fun s => match m s with
           | Returned (a, s') => k a s'
           | Thrown e => Thrown e
           | OutOfFuel => OutOfFuel
           end.

Definition throw {A} (e : Error) : M A := fun _ => Thrown e.
Definition exhausted {A} : M A := fun _ => OutOfFuel.

Declare Scope tok_scope.
Delimit Scope tok_scope with tok.
Notation "x <- m ;; k" := (bind m (fun x => k))
  (at level 61, m at next level, right associativity) : tok_scope.
Notation "m ;;; k" := (bind m (fun _ => k))
  (at level 61, right associativity) : tok_scope.
Local Open Scope tok_scope.

Section Closures.
Variable text : jsstring.
Variable tgt : StepTarget.
Variables leftPasteDel rightPasteDel : option jsstring.

Definition consumeChar : M (option jsstring) := fun s =>
  if length text <=? currentIndex s then Returned (None, s)
  else
    let s' := mkScanner (currentIndex s + 1) (produced s) in
    Returned (charAt text (currentIndex s' - 1), s').

Definition peek : M (option jsstring) := fun s =>
  if length text <=? currentIndex s then Returned (None, s)
  else Returned (charAt text (currentIndex s), s).

Definition addStep (k : DeltaStepKind) (v : jsstring) : M unit := fun s =>
  Returned (tt, mkScanner (currentIndex s)
                  (produced s ++ [mkDeltaStep k tgt None None v])).

(** [while (peek() === ' ') { consumed += consumeChar(); }] *)
Fixpoint consumeWhitespace_loop (fuel : nat) (consumed : jsstring)
  : M jsstring :=
  match fuel with
  | O => exhausted
  | S fuel' =>
      p <- peek ;;
      if strictEq p (Some [SPACE]) then
        c <- consumeChar ;;
        consumeWhitespace_loop fuel' (appendValue consumed c)
      else ret consumed
  end.

(** [while (true) { ... }] of [consumePaste] *)
Fixpoint consumePaste_loop (fuel : nat) (consumed : jsstring)
  : M jsstring :=
  match fuel with
  | O => exhausted
  | S fuel' =>
      peeked <- peek ;;
      match peeked with
      | None => throw UnterminatedPaste
      | Some p =>
          if str_eqb p [LF] then throw NewlineInPaste
          else if strictEq peeked rightPasteDel then
            consumeChar ;;; ret consumed
          else
            c <- consumeChar ;;
            consumePaste_loop fuel' (appendValue consumed c)
      end
  end.

(** Every iteration of a loop either leaves it or advances
    [currentIndex], which never exceeds [text.length]; so
    [text.length + 1] iterations are enough for each loop (see
    [stepsForText_total]). *)
Definition iterations : nat := S (length text).

Definition consumeWhitespace : M jsstring :=
  consumeWhitespace_loop iterations [].

Definition consumePaste : M jsstring :=
  consumePaste_loop iterations [].

(** The main [while (true)] loop. *)
Fixpoint mainLoop (fuel : nat) : M unit :=
  match fuel with
  | O => exhausted
  | S fuel' =>
      char <- consumeChar ;;
      match char with
      | None => ret tt
      | Some ch =>
          if str_eqb ch [LF] then
            addStep INSERT_NEWLINE [LF] ;;; mainLoop fuel'
          else if str_eqb ch [SPACE] then
            remainder <- consumeWhitespace ;;
            addStep INSERT_TEXT ([SPACE] ++ remainder) ;;;
            mainLoop fuel'
          else if strictEq char leftPasteDel then
            pasted <- consumePaste ;;
            addStep INSERT_PASTED_TEXT pasted ;;;
            mainLoop fuel'
          else
            addStep INSERT_TEXT ch ;;; mainLoop fuel'
      end
  end.

End Closures.

(** [steps[0].startLineNumber = ...; steps[0].startColumnIndex = ...]
    when [steps.length > 0]. *)
Definition setStart (startLine startColumn : option Z)
           (l : list DeltaStep) : list DeltaStep :=
  match l with
  | [] => []
  | first :: rest =>
      mkDeltaStep (kind first) (target first) startLine startColumn
                  (value first) :: rest
  end.

(** [const [leftPasteDel, rightPasteDel] = pasteDelimiters ?? ['«', '»']] *)
Definition delimiters (pasteDelimiters : option (list jsstring))
  : option jsstring * option jsstring :=
  let arr := match pasteDelimiters with
             | Some a => a
             | None => [[LAQUO]; [RAQUO]]
             end in
  (nth_error arr 0, nth_error arr 1).

End Tokenizer.

Definition stepsForText (text : jsstring) (tgt : StepTarget)
           (startLine startColumn : option Z)
           (pasteDelimiters : option (list jsstring))
  : outcome (list DeltaStep) :=
  let (leftPasteDel, rightPasteDel) := Tokenizer.delimiters pasteDelimiters in
  match Tokenizer.mainLoop text tgt leftPasteDel rightPasteDel
          (Tokenizer.iterations text) (Tokenizer.mkScanner 0 []) with
  | Returned (_, s) =>
      Returned (Tokenizer.setStart startLine startColumn (Tokenizer.produced s))
  | Thrown e => Thrown e
  | OutOfFuel => OutOfFuel
  end.

(** ** The delay policy [lookupDelays] *)

Record Delays := mkDelays {
  startDelay : option Z;
  endDelay : option Z
}.

Definition PASTE_DELAYS : Delays := mkDelays (Some 300%Z) (Some 100%Z).

(** The object literal [DELAY_CHARACTERS], as its own properties in source
    order. *)
Definition DELAY_CHARACTERS : list (jsstring * Delays) :=
  [ ([SPACE],  mkDelays None (Some 110%Z));
    ([LF],     mkDelays None (Some 60%Z));
    ([LPAREN], mkDelays (Some 80%Z) (Some 60%Z));
    ([RPAREN], mkDelays (Some 80%Z) (Some 60%Z)) ].

(** [obj[key]] *)
Fixpoint getProperty (obj : list (jsstring * Delays)) (key : jsstring)
  : option Delays :=
  match obj with
  | [] => None
  | (k, v) :: obj' => if str_eqb key k then Some v else getProperty obj' key
  end.

(** [key in obj].  The properties an object literal inherits from
    [Object.prototype] all have names longer than one code unit, and
    [lookupDelays] asks only for keys of length one. *)
Definition hasProperty (obj : list (jsstring * Delays)) (key : jsstring) : bool :=
  match getProperty obj key with
  | Some _ => true
  | None => false
  end.

(** [{}] *)
Definition noDelays : Delays := mkDelays None None.

(** A property read whose result is used as a [Delays]; the two reads of
    [lookupDelays] are of properties the table has. *)
Definition readDelays (obj : list (jsstring * Delays)) (key : jsstring) : Delays :=
  match getProperty obj key with
  | Some d => d
  | None => noDelays
  end.

Definition lookupDelays (step : DeltaStep) : Delays :=
  match kind step with
  | INSERT_NEWLINE => readDelays DELAY_CHARACTERS [LF]
  | INSERT_PASTED_TEXT => PASTE_DELAYS
  | _ =>
      if length (value step) =? 1 then
        if hasProperty DELAY_CHARACTERS (value step) then
          readDelays DELAY_CHARACTERS (value step)
        else mkDelays None (Some 60%Z)
      else noDelays
  end.

(** ** The playback loop [runScript] *)

Module Monaco.

(** [new monaco.Range(startLineNumber, startColumn, endLineNumber,
    endColumn)], kept as the four arguments of the constructor. *)
Record Range := mkRange {
  rangeStartLine : Z;
  rangeStartColumn : Z;
  rangeEndLine : Z;
  rangeEndColumn : Z
}.

Inductive TrackedRangeStickiness :=
| AlwaysGrowsWhenTypingAtEdges
| NeverGrowsWhenTypingAtEdges
| GrowsOnlyWhenTypingBefore
| GrowsOnlyWhenTypingAfter.

(** [{ identifier: id, range: range, text: ..., forceMoveMarkers: true }]
    with [id = { major: 1, minor: 1 }]. *)
Record EditOperation := mkEdit {
  identifierMajor : Z;
  identifierMinor : Z;
  editRange : Range;
  editText : jsstring;
  forceMoveMarkers : bool
}.

(** [{ range: ..., options: { inlineClassName: ..., stickiness: ... } }] *)
Record Decoration := mkDecoration {
  decorationRange : Range;
  inlineClassName : string;
  stickiness : option TrackedRangeStickiness
}.

(** The array of decoration ids held in [decorations]: the initial [[]], or
    what [deltaDecorations] returned for the decorations it installed.  The
    loop only hands it back to the editor. *)
Inductive DecorationIds :=
| NoIds
| IdsOf (installed : list Decoration).

End Monaco.

(** [s.trim()] removes leading and trailing white space and line
    terminators. *)
Definition isWhiteSpace (c : codeUnit) : bool :=
  existsb (N.eqb c)
    [9; 10; 11; 12; 13; 32; 160; 5760; 8192; 8193; 8194; 8195; 8196; 8197;
     8198; 8199; 8200; 8201; 8202; 8232; 8233; 8239; 8287; 12288; 65279]%N.

Fixpoint trimStart (s : jsstring) : jsstring :=
  match s with
  | c :: s' => if isWhiteSpace c then trimStart s' else s
  | [] => []
  end.

Definition trim (s : jsstring) : jsstring :=
  rev (trimStart (rev (trimStart s))).

(** What the loop does to the outside, in order. *)
Inductive Event :=
| EvSleep (ms : Z)                                  (* await sleep(ms) *)
| EvSetTarget (t : StepTarget)                      (* setTarget(t) *)
| EvSetBrowserContent (content : jsstring)          (* setBrowserContent(..) *)
| EvSetReplContent (content : jsstring)             (* setReplContent(..) *)
| EvExecuteEdits (source : string) (ops : list Monaco.EditOperation)
| EvDeltaDecorations (old : Monaco.DecorationIds)
                     (new : list Monaco.Decoration).

Module Player.

(** The variables of one run. *)
Record Playback := mkPlayback {
  lineNumber : Z;
  columnIndex : Z;
  newRepl : jsstring;
  currentTarget : option StepTarget;
  decorations : Monaco.DecorationIds
}.

(** A computation of the run: a result, the new variables and the events
    it caused. *)
Definition P (A : Type) := Playback -> A * Playback * list Event.

Definition ret {A} (a : A) : P A := fun st => (a, st, []).

Definition bind {A B} (m : P A) (k : A -> P B) : P B :=
  fun st =>
    let '(a, st1, ev1) := m st in
    let '(b, st2, ev2) := k a st1 in
    (b, st2, ev1 ++ ev2).

Definition emit (e : Event) : P unit := fun st => (tt, st, [e]).
Definition get : P Playback := fun st => (st, st, []).

Declare Scope play_scope.
Delimit Scope play_scope with play.
Notation "x <- m ;; k" := (bind m (fun x => k))
  (at level 61, m at next level, right associativity) : play_scope.
Notation "m ;;; k" := (bind m (fun _ => k))
  (at level 61, right associativity) : play_scope.
Local Open Scope play_scope.
Local Open Scope Z_scope.

Definition sleep (ms : Z) : P unit := emit (EvSleep ms).

Definition target_neq (a : option StepTarget) (b : StepTarget) : bool :=
  match a with
  | Some t => negb (StepTarget_eqb t b)
  | None => true
  end.

(** Assignments to the variables of the run. *)
Definition setLineNumber (v : Z) : P unit := fun st =>
  (tt, mkPlayback v (columnIndex st) (newRepl st) (currentTarget st)
                  (decorations st), []).

Definition setColumnIndex (v : Z) : P unit := fun st =>
  (tt, mkPlayback (lineNumber st) v (newRepl st) (currentTarget st)
                  (decorations st), []).

Definition setNewRepl (v : jsstring) : P unit := fun st =>
  (tt, mkPlayback (lineNumber st) (columnIndex st) v (currentTarget st)
                  (decorations st), []).

Definition setCurrentTarget (v : option StepTarget) : P unit := fun st =>
  (tt, mkPlayback (lineNumber st) (columnIndex st) (newRepl st) v
                  (decorations st), []).

Definition setDecorations (v : Monaco.DecorationIds) : P unit := fun st =>
  (tt, mkPlayback (lineNumber st) (columnIndex st) (newRepl st)
                  (currentTarget st) v, []).

Definition changeTarget (step : DeltaStep) : P unit :=
  st <- get ;;
  if target_neq (currentTarget st) (target step) then
    setCurrentTarget (Some (target step)) ;;;
    emit (EvSetTarget (target step)) ;;;
    sleep 100
  else ret tt.

Definition sleepIfDefined (d : option Z) : P unit :=
  match d with
  | Some ms => sleep ms
  | None => ret tt
  end.

(** [a ?? b] *)
Definition nullish (a : option Z) (b : Z) : Z :=
  match a with
  | Some v => v
  | None => b
  end.

Definition valueLength (step : DeltaStep) : Z := Z.of_nat (length (value step)).

(** [editor.deltaDecorations(old, new)] and the ids it returns. *)
Definition deltaDecorations (old : Monaco.DecorationIds)
           (new : list Monaco.Decoration) : P Monaco.DecorationIds :=
  emit (EvDeltaDecorations old new) ;;; ret (Monaco.IdsOf new).

(** The branch [step.target === StepTarget.EDITOR]. *)
Definition editorInsert (step : DeltaStep) : P unit :=
  st <- get ;;
  setLineNumber (nullish (startLineNumber step) (lineNumber st)) ;;;
  setColumnIndex (nullish (startColumnIndex step) (columnIndex st)) ;;;
  st <- get ;;
  let range := Monaco.mkRange (lineNumber st) (columnIndex st)
                              (lineNumber st) (columnIndex st) in
  let op := Monaco.mkEdit 1 1 range (value step) true in
  emit (EvExecuteEdits "animated-code-example" [op]) ;;;
  (if negb (length (trim (value step)) =? 0)%nat then
     deltaDecorations Monaco.NoIds
       [Monaco.mkDecoration
          (Monaco.mkRange (lineNumber st) (columnIndex st) (lineNumber st)
                          (jsAdd (columnIndex st) (valueLength step)))
          "addition" None] ;;; ret tt
   else ret tt) ;;;
  let newDecorations :=
    [Monaco.mkDecoration
       (Monaco.mkRange (lineNumber st) (columnIndex st) (lineNumber st)
                       (jsAdd (columnIndex st) (valueLength step)))
       "fake-cursor" (Some Monaco.NeverGrowsWhenTypingAtEdges)] in
  ids <- deltaDecorations (decorations st) newDecorations ;;
  setDecorations ids ;;;
  match kind step with
  | INSERT_NEWLINE =>
      setLineNumber (jsAdd (lineNumber st) 1) ;;;
      setColumnIndex 1
  | _ =>
      setColumnIndex (jsAdd (columnIndex st) (valueLength step))
  end.

(** The [else] branch: any other target. *)
Definition replAppend (step : DeltaStep) : P unit :=
  st <- get ;;
  setNewRepl (newRepl st ++ value step) ;;;
  st <- get ;;
  emit (EvSetReplContent (newRepl st)).

(** The body of [for (const step of script.steps)]. *)
Definition runStep (step : DemoScriptStep) : P unit :=
  match step with
  | Sleep duration => sleep duration
  | Delta step =>
      match kind step with
      | SET_BROWSER_CONTENT =>
          changeTarget step ;;;
          emit (EvSetBrowserContent []) ;;;
          sleep 500 ;;;
          emit (EvSetBrowserContent (value step)) ;;;
          sleep 200
      | _ =>
          changeTarget step ;;;
          let delays := lookupDelays step in
          sleepIfDefined (startDelay delays) ;;;
          (match target step with
           | EDITOR => editorInsert step
           | _ => replAppend step
           end) ;;;
          sleepIfDefined (endDelay delays)
      end
  end.

Fixpoint runSteps (l : list DemoScriptStep) : P unit :=
  match l with
  | [] => ret tt
  | step :: l' => runStep step ;;; runSteps l'
  end.

(** The variables as [runScript] declares them. *)
Definition initialPlayback (script : DemoScript) : Playback :=
  mkPlayback 1 1 (initialReplContent script) None Monaco.NoIds.

End Player.

(** One run of the script: the final variables and everything done. *)
Definition runScript (script : DemoScript) : Player.Playback * list Event :=
  let '(_, st, events) :=
    Player.bind (Player.sleep 300) (fun _ => Player.runSteps (steps script))
                (Player.initialPlayback script) in
  (st, events).

(** * Vocabulary of the properties *)

(** [isDelimiter d c]: the one-unit string [c] is [===] to the delimiter
    [d].  A delimiter that is [undefined], empty or longer than one code
    unit matches no character. *)
Definition isDelimiter (d : option jsstring) (c : codeUnit) : bool :=
  strictEq (Some [c]) d.

Definition contains (c : codeUnit) (s : jsstring) : bool :=
  existsb (N.eqb c) s.

Definition containsDelimiter (d : option jsstring) (s : jsstring) : bool :=
  existsb (isDelimiter d) s.

(** [cons_step s r] puts [s] in front of the steps of a run that returns. *)
Definition cons_step (s : DeltaStep) (r : outcome (list DeltaStep))
  : outcome (list DeltaStep) :=
  match r with
  | Returned l => Returned (s :: l)
  | Thrown e => Thrown e
  | OutOfFuel => OutOfFuel
  end.

(** The first character of [s] is not a space. *)
Definition noLeadingSpace (s : jsstring) : Prop :=
  match s with
  | c :: _ => c <> SPACE
  | [] => True
  end.

Section Grammar.
Variable tgt : StepTarget.
Variables leftPasteDel rightPasteDel : option jsstring.

(** The step [addStep] pushes. *)
Definition pushed (k : DeltaStepKind) (v : jsstring) : DeltaStep :=
  mkDeltaStep k tgt None None v.

(** [opensPaste c]: the main loop reaches the left-delimiter test on [c]
    and the test succeeds. *)
Definition opensPaste (c : codeUnit) : Prop :=
  c <> LF /\ c <> SPACE /\ isDelimiter leftPasteDel c = true.

(** [pasteBody b]: the paste loop consumes all of [b] without stopping. *)
Definition pasteBody (b : jsstring) : Prop :=
  contains LF b = false /\ containsDelimiter rightPasteDel b = false.

(** The tokens of a text, read off the text alone: what the main loop
    pushes when started at the beginning of the text with no step pushed
    yet (before the start position is assigned). *)
Inductive Tokens : jsstring -> outcome (list DeltaStep) -> Prop :=
| Tokens_end :
    Tokens [] (Returned [])
| Tokens_newline rest r :
    Tokens rest r ->
    Tokens (LF :: rest) (cons_step (pushed INSERT_NEWLINE [LF]) r)
| Tokens_spaces n rest r :
    noLeadingSpace rest ->
    Tokens rest r ->
    Tokens (repeat SPACE (S n) ++ rest)
           (cons_step (pushed INSERT_TEXT (repeat SPACE (S n))) r)
| Tokens_paste c body d rest r :
    opensPaste c -> pasteBody body ->
    d <> LF -> isDelimiter rightPasteDel d = true ->
    Tokens rest r ->
    Tokens (c :: body ++ d :: rest)
           (cons_step (pushed INSERT_PASTED_TEXT body) r)
| Tokens_unterminated c body :
    opensPaste c -> pasteBody body ->
    Tokens (c :: body) (Thrown UnterminatedPaste)
| Tokens_newline_in_paste c body rest :
    opensPaste c -> pasteBody body ->
    Tokens (c :: body ++ LF :: rest) (Thrown NewlineInPaste)
| Tokens_char c rest r :
    c <> LF -> c <> SPACE -> isDelimiter leftPasteDel c = false ->
    Tokens rest r ->
    Tokens (c :: rest) (cons_step (pushed INSERT_TEXT [c]) r).

End Grammar.

(** The scanner standing just after the prefix [pre] of the text. *)
Definition scannerAfter (pre : jsstring) (acc : list DeltaStep)
  : Tokenizer.Scanner :=
  Tokenizer.mkScanner (length pre) acc.

(** How the main loop, resumed behind [pre] with the steps [acc] pushed
    so far, ends when the rest of the text has the tokens [r]. *)
Definition resume (pre rest : jsstring) (acc : list DeltaStep)
           (r : outcome (list DeltaStep)) : outcome (unit * Tokenizer.Scanner) :=
  match r with
  | Returned new => Returned (tt, scannerAfter (pre ++ rest) (acc ++ new))
  | Thrown e => Thrown e
  | OutOfFuel => OutOfFuel
  end.

(** [assignStart] is the post-pass of [stepsForText] on the outcome of the
    main loop. *)
Definition assignStart (startLine startColumn : option Z)
           (r : outcome (list DeltaStep)) : outcome (list DeltaStep) :=
  match r with
  | Returned l => Returned (Tokenizer.setStart startLine startColumn l)
  | Thrown e => Thrown e
  | OutOfFuel => OutOfFuel
  end.

Definition leftDelimiter (pasteDelimiters : option (list jsstring)) :=
  fst (Tokenizer.delimiters pasteDelimiters).

Definition rightDelimiter (pasteDelimiters : option (list jsstring)) :=
  snd (Tokenizer.delimiters pasteDelimiters).

(** [prepend s r] puts the steps [s] in front of the steps of [r]. *)
Definition prepend (s : list DeltaStep) (r : outcome (list DeltaStep))
  : outcome (list DeltaStep) :=
  match r with
  | Returned l => Returned (s ++ l)
  | Thrown e => Thrown e
  | OutOfFuel => OutOfFuel
  end.

(** The last character of [s] is not a space. *)
Definition noTrailingSpace (s : jsstring) : Prop :=
  forall p, s <> p ++ [SPACE].

(** [cutPaste R e tail]: the paste loop, started on [tail], throws [e]. *)
Definition cutPaste (R : option jsstring) (e : Error) (tail : jsstring) : Prop :=
  match e with
  | UnterminatedPaste => pasteBody R tail
  | NewlineInPaste =>
      exists body rest, tail = body ++ LF :: rest /\ pasteBody R body
  end.

(** [returnsOn text tgt pd]: the tokenizer does not throw on [text]. *)
Definition returnsOn (text : jsstring) (tgt : StepTarget)
           (pasteDelimiters : option (list jsstring)) : Prop :=
  exists s, stepsForText text tgt None None pasteDelimiters = Returned s.

Definition startsWithSpace (s : jsstring) : bool :=
  match s with
  | c :: _ => N.eqb c SPACE
  | [] => false
  end.

Definition endsWithSpace (s : jsstring) : bool := startsWithSpace (rev s).

Definition isNewlineStep (s : DeltaStep) : bool :=
  kind_eqb (kind s) INSERT_NEWLINE.

(** The events and the variables a computation of the run leaves. *)
Definition eventsOf (m : Player.P unit) (st : Player.Playback) : list Event :=
  snd (m st).

Definition stateOf (m : Player.P unit) (st : Player.Playback)
  : Player.Playback :=
  snd (fst (m st)).

(** The variables of the run of [script] once the steps [done] have been
    played. *)
Definition playbackAfter (script : DemoScript) (done : list DemoScriptStep)
  : Player.Playback :=
  stateOf (Player.runSteps done) (Player.initialPlayback script).

(** The edit operations sent to the editor. *)
Fixpoint edits (events : list Event) : list Monaco.EditOperation :=
  match events with
  | EvExecuteEdits _ ops :: events' => ops ++ edits events'
  | _ :: events' => edits events'
  | [] => []
  end.

Definition isTargetSignal (e : Event) : bool :=
  match e with
  | EvSetTarget _ => true
  | _ => false
  end.

Definition isPaneMutation (e : Event) : bool :=
  match e with
  | EvSetBrowserContent _ | EvSetReplContent _
  | EvExecuteEdits _ _ | EvDeltaDecorations _ _ => true
  | _ => false
  end.

Definition isSwitchPause (e : Event) : bool :=
  match e with
  | EvSleep ms => Z.eqb ms 100
  | _ => false
  end.

(** The variables with [currentTarget] set to the target of [step]. *)
Definition switchedTo (step : DeltaStep) (st : Player.Playback)
  : Player.Playback :=
  Player.mkPlayback (Player.lineNumber st) (Player.columnIndex st)
                    (Player.newRepl st) (Some (target step))
                    (Player.decorations st).

(** [Number.isSafeInteger]: an integer below 2^53 in size. *)
Definition isSafeInteger (z : Z) : bool := (Z.abs z <? 2 ^ 53)%Z.

(** The kinds and targets that go together in a script, as the
    specification has them (its data model and the edge cases of its
    playback engine): a step has the kind SET_BROWSER_CONTENT exactly when
    its target is BROWSER. *)
Definition isValidStep (s : DeltaStep) : bool :=
  Bool.eqb (kind_eqb (kind s) SET_BROWSER_CONTENT)
           (StepTarget_eqb (target s) BROWSER).

(** ** Vocabulary of the further properties *)

(** A delimiter as the text it stands for ([undefined] stands for none). *)
Definition delimiterText (d : option jsstring) : jsstring :=
  match d with
  | Some s => s
  | None => []
  end.

(** The piece of text a step was made from: its value, between the
    delimiters for a pasted step. *)
Definition sourceOf (L R : option jsstring) (s : DeltaStep) : jsstring :=
  match kind s with
  | INSERT_PASTED_TEXT => delimiterText L ++ value s ++ delimiterText R
  | _ => value s
  end.

(** What a step of the tokenizer looks like. *)
Definition tokenShape (tgt : StepTarget) (L R : option jsstring)
           (s : DeltaStep) : Prop :=
  target s = tgt /\
  match kind s with
  | INSERT_NEWLINE => value s = [LF]
  | INSERT_TEXT =>
      (exists n, value s = repeat SPACE (S n)) \/
      (exists c, value s = [c] /\ c <> LF /\ c <> SPACE /\
                 isDelimiter L c = false)
  | INSERT_PASTED_TEXT =>
      contains LF (value s) = false /\
      containsDelimiter R (value s) = false
  | SET_BROWSER_CONTENT => False
  end.

(** An INSERT_TEXT step that starts with a space. *)
Definition isSpaceRun (s : DeltaStep) : bool :=
  kind_eqb (kind s) INSERT_TEXT && startsWithSpace (value s).

(** Some step that starts with a space is directly followed by another. *)
Fixpoint adjacentSpaceRuns (l : list DeltaStep) : bool :=
  match l with
  | s1 :: tl =>
      match tl with
      | s2 :: _ => (isSpaceRun s1 && isSpaceRun s2) || adjacentSpaceRuns tl
      | [] => false
      end
  | [] => false
  end.

(** The targets signalled with [setTarget], in order. *)
Fixpoint targetSignals (events : list Event) : list StepTarget :=
  match events with
  | EvSetTarget t :: events' => t :: targetSignals events'
  | _ :: events' => targetSignals events'
  | [] => []
  end.

(** The contents given to [setBrowserContent], in order. *)
Fixpoint browserContents (events : list Event) : list jsstring :=
  match events with
  | EvSetBrowserContent c :: events' => c :: browserContents events'
  | _ :: events' => browserContents events'
  | [] => []
  end.

(** The contents given to [setReplContent], in order. *)
Fixpoint replContents (events : list Event) : list jsstring :=
  match events with
  | EvSetReplContent c :: events' => c :: replContents events'
  | _ :: events' => replContents events'
  | [] => []
  end.

(** The time slept, in ms. *)
Fixpoint totalSleep (events : list Event) : Z :=
  match events with
  | EvSleep ms :: events' => (ms + totalSleep events')%Z
  | _ :: events' => totalSleep events'
  | [] => 0%Z
  end.

(** The targets of the delta steps of a script, in order. *)
Fixpoint deltaTargets (l : list DemoScriptStep) : list StepTarget :=
  match l with
  | Delta s :: l' => target s :: deltaTargets l'
  | Sleep _ :: l' => deltaTargets l'
  | [] => []
  end.

(** [collapse cur ts]: the targets of [ts] that differ from the one before
    them, [cur] standing before the first. *)
Fixpoint collapse (cur : option StepTarget) (ts : list StepTarget)
  : list StepTarget :=
  match ts with
  | t :: ts' =>
      if Player.target_neq cur t then t :: collapse (Some t) ts'
      else collapse (Some t) ts'
  | [] => []
  end.

(** Some target is directly followed by the same target. *)
Fixpoint adjacentEqual (l : list StepTarget) : bool :=
  match l with
  | a :: tl =>
      match tl with
      | b :: _ => StepTarget_eqb a b || adjacentEqual tl
      | [] => false
      end
  | [] => false
  end.

(** The delta steps that take the SET_BROWSER_CONTENT branch, the EDITOR
    branch and the remaining branch of the loop. *)
Definition isBrowserStep (s : DeltaStep) : bool :=
  kind_eqb (kind s) SET_BROWSER_CONTENT.

Definition isEditorStep (s : DeltaStep) : bool :=
  negb (isBrowserStep s) && StepTarget_eqb (target s) EDITOR.

Definition isReplStep (s : DeltaStep) : bool :=
  negb (isBrowserStep s) && negb (StepTarget_eqb (target s) EDITOR).

(** The values of the delta steps of a script that satisfy [p], in order. *)
Fixpoint valuesWhere (p : DeltaStep -> bool) (l : list DemoScriptStep)
  : list jsstring :=
  match l with
  | Delta s :: l' => if p s then value s :: valuesWhere p l'
                     else valuesWhere p l'
  | Sleep _ :: l' => valuesWhere p l'
  | [] => []
  end.

(** What the browser pane is given for the browser steps of a script: the
    empty content, then the value, for each. *)
Fixpoint browserSwaps (l : list DemoScriptStep) : list jsstring :=
  match l with
  | Delta s :: l' => if isBrowserStep s then [] :: value s :: browserSwaps l'
                     else browserSwaps l'
  | Sleep _ :: l' => browserSwaps l'
  | [] => []
  end.

(** The buffer after each of the values [vals] is appended in turn. *)
Fixpoint buffers (buffer : jsstring) (vals : list jsstring) : list jsstring :=
  match vals with
  | v :: vals' => (buffer ++ v) :: buffers (buffer ++ v) vals'
  | [] => []
  end.

(** Where the caret of an editor stands after [text] is typed at
    ([line], [column]). *)
Fixpoint caretAfter (line column : Z) (text : jsstring) : Z * Z :=
  match text with
  | c :: text' =>
      if N.eqb c LF then caretAfter (line + 1) 1 text'
      else caretAfter line (column + 1) text'
  | [] => (line, column)
  end.

Definition cursorOf (st : Player.Playback) : Z * Z :=
  (Player.lineNumber st, Player.columnIndex st).

(** The durations of the SLEEP steps of a script, added up, and the number
    of its delta steps. *)
Fixpoint sleepDurations (l : list DemoScriptStep) : Z :=
  match l with
  | Sleep d :: l' => (d + sleepDurations l')%Z
  | Delta _ :: l' => sleepDurations l'
  | [] => 0%Z
  end.

Fixpoint deltaCount (l : list DemoScriptStep) : Z :=
  match l with
  | Delta _ :: l' => (1 + deltaCount l')%Z
  | Sleep _ :: l' => deltaCount l'
  | [] => 0%Z
  end.

(** The coordinates a step gives are 1 or more. *)
Definition coordinatesFrom1 (step : DemoScriptStep) : Prop :=
  match step with
  | Delta s =>
      (forall v, startLineNumber s = Some v -> (1 <= v)%Z) /\
      (forall v, startColumnIndex s = Some v -> (1 <= v)%Z)
  | Sleep _ => True
  end.

(** An edit that inserts at one position, from line 1 and column 1 on. *)
Definition insertsAt (op : Monaco.EditOperation) : Prop :=
  Monaco.rangeEndLine (Monaco.editRange op)
  = Monaco.rangeStartLine (Monaco.editRange op) /\
  Monaco.rangeEndColumn (Monaco.editRange op)
  = Monaco.rangeStartColumn (Monaco.editRange op) /\
  Monaco.forceMoveMarkers op = true.

Definition startsFrom1 (op : Monaco.EditOperation) : Prop :=
  (1 <= Monaco.rangeStartLine (Monaco.editRange op))%Z /\
  (1 <= Monaco.rangeStartColumn (Monaco.editRange op))%Z.

(** The calls of [deltaDecorations] that install a fake cursor, and those
    that install an addition highlight, each with the ids it was given. *)
Definition installs (className : string) (new : list Monaco.Decoration)
  : bool :=
  forallb (fun d => String.eqb (Monaco.inlineClassName d) className) new.

Fixpoint decorationCalls (className : string) (events : list Event)
  : list (Monaco.DecorationIds * list Monaco.Decoration) :=
  match events with
  | EvDeltaDecorations old new :: events' =>
      if installs className new
      then (old, new) :: decorationCalls className events'
      else decorationCalls className events'
  | _ :: events' => decorationCalls className events'
  | [] => []
  end.

(** The ids a call returns. *)
Definition returnedIds (call : Monaco.DecorationIds * list Monaco.Decoration)
  : Monaco.DecorationIds :=
  Monaco.IdsOf (snd call).

(** A value with a character that is not white space. *)
Definition hasVisibleText (v : jsstring) : bool :=
  existsb (fun c => negb (isWhiteSpace c)) v.

Definition isVisibleInsert (s : DeltaStep) : bool :=
  isEditorStep s && hasVisibleText (value s).

(** The outcome [r] with the target of every step set to [tgt]. *)
Definition retarget (tgt : StepTarget) (r : outcome (list DeltaStep))
  : outcome (list DeltaStep) :=
  match r with
  | Returned l =>
      Returned (map (fun s => mkDeltaStep (kind s) tgt (startLineNumber s)
                                          (startColumnIndex s) (value s)) l)
  | Thrown e => Thrown e
  | OutOfFuel => OutOfFuel
  end.

(** ** The script of the playground ([src/playground/src/App.tsx]) *)

(** [...stepsForText(..)] inside an array literal: the steps of the call
    are spliced in; a call that throws ends the construction. *)
Definition spread (r : outcome (list DeltaStep))
           (k : list DemoScriptStep -> outcome (list DemoScriptStep))
  : outcome (list DemoScriptStep) :=
  match r with
  | Returned l => k (map Delta l)
  | Thrown e => Thrown e
  | OutOfFuel => OutOfFuel
  end.

Definition playgroundSteps : outcome (list DemoScriptStep) :=
  spread (stepsForText (js "from somelib import something" ++ [LF]) EDITOR
                       (Some 1%Z) (Some 1%Z) None) (fun batch1 =>
  spread (stepsForText (js " - Hi there!") EDITOR (Some 5%Z) (Some 23%Z) None)
         (fun batch2 =>
  spread (stepsForText (js "./deploywebsite") REPL (Some 1%Z) (Some 1%Z) None)
         (fun batch3 =>
  Returned
    (batch1 ++ batch2 ++ batch3 ++
     [Sleep 200;
      Delta (mkDeltaStep INSERT_TEXT REPL None None
                         ([LF] ++ js "> Website updated!"));
      Sleep 500;
      Delta (mkDeltaStep SET_BROWSER_CONTENT BROWSER None None
                         (js "Hello World! - Hi there!"))])))).

Definition playgroundScript : outcome DemoScript :=
  match playgroundSteps with
  | Returned l =>
      Returned
        (mkDemoScript l
           (js "Hello World!")
           []
           ([LF] ++ js "@app.route('/')" ++ [LF] ++ js "def hello_world():"
                 ++ [LF] ++ js "  return 'Hello World!'" ++ [LF])
           (js "python"))
  | Thrown e => Thrown e
  | OutOfFuel => OutOfFuel
  end.

(** ** Reasoning about the tokenizer *)

Lemma str_eqb_eq (a b : jsstring) : str_eqb a b = true <-> a = b.
Proof.
  revert b; induction a as [|x a IH]; intros [|y b]; simpl;
    try (split; (reflexivity || discriminate)).
  rewrite andb_true_iff, N.eqb_eq, IH.
  split; [intros [-> ->]; reflexivity | intros H; inversion H; auto].
Qed.

Lemma str_eqb_refl (a : jsstring) : str_eqb a a = true.
Proof. apply str_eqb_eq; reflexivity. Qed.

Lemma str_eqb_single (c d : codeUnit) : str_eqb [c] [d] = N.eqb c d.
Proof. simpl. apply andb_true_r. Qed.

Lemma isDelimiter_true (d : option jsstring) (c : codeUnit) :
  isDelimiter d c = true <-> d = Some [c].
Proof.
  unfold isDelimiter, strictEq. destruct d as [x|].
  - rewrite str_eqb_eq. split; [intros <-; reflexivity | intros H; inversion H; reflexivity].
  - split; discriminate.
Qed.

Lemma contains_false (c : codeUnit) (s : jsstring) :
  contains c s = false <-> ~ In c s.
Proof.
  unfold contains. induction s as [|x s IH]; simpl.
  - tauto.
  - rewrite orb_false_iff, IH, N.eqb_neq. intuition congruence.
Qed.

Lemma containsDelimiter_false (d : option jsstring) (s : jsstring) :
  containsDelimiter d s = false <-> forall c, In c s -> isDelimiter d c = false.
Proof.
  unfold containsDelimiter. induction s as [|x s IH]; simpl.
  - intuition.
  - rewrite orb_false_iff, IH. intuition (subst; auto).
Qed.

Lemma contains_app (c : codeUnit) (a b : jsstring) :
  contains c (a ++ b) = contains c a || contains c b.
Proof. apply existsb_app. Qed.

Lemma containsDelimiter_app (d : option jsstring) (a b : jsstring) :
  containsDelimiter d (a ++ b) = containsDelimiter d a || containsDelimiter d b.
Proof. apply existsb_app. Qed.

Module TokenizerFacts.
Import Tokenizer.

Lemma after_snoc pre c acc :
  mkScanner (length pre + 1) acc = scannerAfter (pre ++ [c]) acc.
Proof. unfold scannerAfter. rewrite length_app. reflexivity. Qed.

Lemma charAt_middle pre c rest :
  charAt (pre ++ c :: rest) (length pre) = Some [c].
Proof.
  unfold charAt. rewrite nth_error_app2 by lia.
  rewrite Nat.sub_diag. reflexivity.
Qed.

Lemma leb_middle pre (c : codeUnit) rest :
  (length (pre ++ c :: rest) <=? length pre) = false.
Proof. apply Nat.leb_gt. rewrite length_app. simpl. lia. Qed.

Lemma consumeChar_middle text pre c rest acc :
  text = pre ++ c :: rest ->
  consumeChar text (scannerAfter pre acc)
  = Returned (Some [c], scannerAfter (pre ++ [c]) acc).
Proof.
  intros ->. unfold consumeChar, scannerAfter at 1. simpl.
  rewrite leb_middle, Nat.add_sub, charAt_middle, (after_snoc pre c acc).
  reflexivity.
Qed.

Lemma consumeChar_end text acc :
  consumeChar text (scannerAfter text acc) = Returned (None, scannerAfter text acc).
Proof. unfold consumeChar, scannerAfter. simpl. rewrite Nat.leb_refl. reflexivity. Qed.

Lemma peek_middle text pre c rest acc :
  text = pre ++ c :: rest ->
  peek text (scannerAfter pre acc) = Returned (Some [c], scannerAfter pre acc).
Proof.
  intros ->. unfold peek, scannerAfter. simpl.
  rewrite leb_middle, charAt_middle. reflexivity.
Qed.

Lemma peek_end text acc :
  peek text (scannerAfter text acc) = Returned (None, scannerAfter text acc).
Proof. unfold peek, scannerAfter. simpl. rewrite Nat.leb_refl. reflexivity. Qed.

Lemma single_neq_space c :
  c <> SPACE -> strictEq (Some [c]) (Some [SPACE]) = false.
Proof.
  intros H. unfold strictEq. rewrite str_eqb_single. now apply N.eqb_neq.
Qed.

(** The whitespace loop absorbs a whole run of spaces. *)
Lemma consumeWhitespace_loop_run n :
  forall text pre rest fuel consumed acc,
    text = pre ++ repeat SPACE n ++ rest ->
    noLeadingSpace rest ->
    n < fuel ->
    consumeWhitespace_loop text fuel consumed (scannerAfter pre acc)
    = Returned (consumed ++ repeat SPACE n,
                scannerAfter (pre ++ repeat SPACE n) acc).
Proof.
  induction n as [|n IH]; intros text pre rest fuel consumed acc Ht Hrest Hfuel;
    (destruct fuel as [|fuel]; [lia|]); cbn [consumeWhitespace_loop repeat];
    unfold bind.
  - simpl in Ht. rewrite !app_nil_r.
    destruct rest as [|c rest].
    + rewrite app_nil_r in Ht. subst pre. rewrite peek_end. reflexivity.
    + rewrite (peek_middle text pre c rest acc Ht).
      rewrite (single_neq_space c Hrest). reflexivity.
  - simpl in Ht.
    rewrite (peek_middle text pre SPACE _ acc Ht).
    cbn [strictEq]. rewrite str_eqb_refl.
    rewrite (consumeChar_middle text pre SPACE _ acc Ht).
    rewrite (IH text (pre ++ [SPACE]) rest fuel _ acc);
      [ | rewrite <- app_assoc; exact Ht | exact Hrest | lia].
    unfold appendValue. rewrite <- !app_assoc. reflexivity.
Qed.

Lemma pasteBody_cons R c body :
  pasteBody R (c :: body) ->
  c <> LF /\ isDelimiter R c = false /\ pasteBody R body.
Proof.
  unfold pasteBody. rewrite !contains_false, !containsDelimiter_false.
  cbn [In]. intuition.
Qed.

Lemma single_neq_LF c : c <> LF -> str_eqb [c] [LF] = false.
Proof. intros H. rewrite str_eqb_single. now apply N.eqb_neq. Qed.

(** The paste loop consumes a body free of newlines and of the right
    delimiter, and goes on behind it. *)
Lemma consumePaste_loop_body R body :
  forall text pre rest fuel consumed acc,
    text = pre ++ body ++ rest ->
    pasteBody R body ->
    consumePaste_loop text R (length body + fuel) consumed (scannerAfter pre acc)
    = consumePaste_loop text R fuel (consumed ++ body)
                        (scannerAfter (pre ++ body) acc).
Proof.
  induction body as [|c body IH]; intros text pre rest fuel consumed acc Ht Hb.
  - simpl. rewrite !app_nil_r. reflexivity.
  - apply pasteBody_cons in Hb. destruct Hb as (Hlf & Hr & Hb).
    simpl in Ht. cbn [length Nat.add consumePaste_loop]. unfold bind.
    rewrite (peek_middle text pre c _ acc Ht).
    rewrite (single_neq_LF c Hlf).
    unfold isDelimiter in Hr. rewrite Hr.
    rewrite (consumeChar_middle text pre c _ acc Ht).
    rewrite (IH text (pre ++ [c]) rest fuel _ acc);
      [ | rewrite <- app_assoc; exact Ht | exact Hb].
    unfold appendValue. rewrite <- !app_assoc. reflexivity.
Qed.

Lemma fuel_split (n fuel : nat) :
  n < fuel -> fuel = n + S (fuel - S n).
Proof. lia. Qed.

Lemma consumePaste_loop_closed R body d :
  forall text pre rest fuel acc,
    text = pre ++ body ++ d :: rest ->
    pasteBody R body -> d <> LF -> isDelimiter R d = true ->
    length body < fuel ->
    consumePaste_loop text R fuel [] (scannerAfter pre acc)
    = Returned (body, scannerAfter (pre ++ body ++ [d]) acc).
Proof.
  intros text pre rest fuel acc Ht Hb Hlf Hd Hfuel.
  rewrite (fuel_split (length body) fuel Hfuel).
  rewrite (consumePaste_loop_body R body text pre (d :: rest) _ [] acc Ht Hb).
  cbn [consumePaste_loop]. unfold bind.
  assert (Ht' : text = (pre ++ body) ++ d :: rest)
    by (rewrite <- app_assoc; exact Ht).
  rewrite (peek_middle text _ d rest acc Ht').
  rewrite (single_neq_LF d Hlf).
  unfold isDelimiter in Hd. rewrite Hd.
  rewrite (consumeChar_middle text _ d rest acc Ht').
  unfold ret. rewrite <- app_assoc. reflexivity.
Qed.

Lemma consumePaste_loop_unterminated R body :
  forall text pre fuel acc,
    text = pre ++ body ->
    pasteBody R body ->
    length body < fuel ->
    consumePaste_loop text R fuel [] (scannerAfter pre acc)
    = Thrown UnterminatedPaste.
Proof.
  intros text pre fuel acc Ht Hb Hfuel.
  rewrite (fuel_split (length body) fuel Hfuel).
  rewrite (consumePaste_loop_body R body text pre [] _ [] acc);
    [ | rewrite app_nil_r; exact Ht | exact Hb].
  cbn [consumePaste_loop]. unfold bind.
  rewrite <- Ht, peek_end. reflexivity.
Qed.

Lemma consumePaste_loop_newline R body :
  forall text pre rest fuel acc,
    text = pre ++ body ++ LF :: rest ->
    pasteBody R body ->
    length body < fuel ->
    consumePaste_loop text R fuel [] (scannerAfter pre acc)
    = Thrown NewlineInPaste.
Proof.
  intros text pre rest fuel acc Ht Hb Hfuel.
  rewrite (fuel_split (length body) fuel Hfuel).
  rewrite (consumePaste_loop_body R body text pre (LF :: rest) _ [] acc Ht Hb).
  cbn [consumePaste_loop]. unfold bind.
  assert (Ht' : text = (pre ++ body) ++ LF :: rest)
    by (rewrite <- app_assoc; exact Ht).
  rewrite (peek_middle text _ LF rest acc Ht'). reflexivity.
Qed.

Lemma resume_cons_step pre mid rest acc s r :
  resume (pre ++ mid) rest (acc ++ [s]) r
  = resume pre (mid ++ rest) acc (cons_step s r).
Proof.
  destruct r; simpl; try reflexivity.
  rewrite <- !app_assoc. reflexivity.
Qed.

Lemma addStep_after tgt k v pre acc :
  addStep tgt k v (scannerAfter pre acc)
  = Returned (tt, scannerAfter pre (acc ++ [pushed tgt k v])).
Proof. reflexivity. Qed.

Section MainLoop.
Variable tgt : StepTarget.
Variables L R : option jsstring.

(** The main loop computes the tokens of the grammar. *)
Lemma mainLoop_Tokens rest r :
  Tokens tgt L R rest r ->
  forall text pre acc fuel,
    text = pre ++ rest ->
    length rest < fuel ->
    mainLoop text tgt L R fuel (scannerAfter pre acc) = resume pre rest acc r.
Proof.
  induction 1 as [ | rest r _ IH | n rest r Hrest _ IH
                 | c body d rest r Hc Hb Hlf Hd _ IH
                 | c body Hc Hb | c body rest Hc Hb
                 | c rest r Hlf Hsp Hl _ IH ];
    intros text pre acc fuel Ht Hfuel;
    (destruct fuel as [|fuel]; [simpl in Hfuel; lia|]);
    cbn [mainLoop]; unfold bind at 1.
  - rewrite app_nil_r in Ht. subst pre.
    rewrite consumeChar_end. unfold ret, resume.
    rewrite !app_nil_r. reflexivity.
  - rewrite (consumeChar_middle text pre LF rest acc Ht).
    rewrite str_eqb_refl. unfold bind. rewrite addStep_after.
    rewrite (IH text (pre ++ [LF]));
      [ | rewrite <- app_assoc; exact Ht | simpl in Hfuel; lia].
    apply (resume_cons_step pre [LF] rest).
  - cbn [repeat app] in Ht.
    rewrite (consumeChar_middle text pre SPACE _ acc Ht).
    assert (Hnl : str_eqb [SPACE] [LF] = false) by reflexivity.
    rewrite Hnl, str_eqb_refl. unfold bind at 1, consumeWhitespace.
    rewrite (consumeWhitespace_loop_run n text (pre ++ [SPACE]) rest);
      [ | rewrite <- app_assoc; exact Ht | exact Hrest
        | unfold iterations; subst text;
          rewrite length_app; simpl; rewrite length_app, repeat_length; lia].
    unfold bind. rewrite addStep_after.
    rewrite (IH text ((pre ++ [SPACE]) ++ repeat SPACE n));
      [ | rewrite <- !app_assoc; exact Ht
        | rewrite length_app in Hfuel; simpl in Hfuel; lia].
    rewrite <- app_assoc.
    apply (resume_cons_step pre (SPACE :: repeat SPACE n) rest).
  - destruct Hc as (Hclf & Hcsp & Hcl).
    rewrite (consumeChar_middle text pre c _ acc Ht).
    rewrite (single_neq_LF c Hclf).
    assert (Hs : str_eqb [c] [SPACE] = false)
      by (rewrite str_eqb_single; now apply N.eqb_neq).
    rewrite Hs. unfold isDelimiter in Hcl. rewrite Hcl.
    unfold bind at 1, consumePaste.
    rewrite (consumePaste_loop_closed R body d text (pre ++ [c]) rest);
      [ | rewrite <- app_assoc; exact Ht | exact Hb | exact Hlf | exact Hd
        | unfold iterations; subst text;
          rewrite length_app; simpl; rewrite length_app; lia].
    unfold bind. rewrite addStep_after.
    rewrite (IH text ((pre ++ [c]) ++ body ++ [d]));
      [ | repeat rewrite <- app_assoc; cbn [app]; exact Ht
        | simpl in Hfuel; rewrite length_app in Hfuel; simpl in Hfuel; lia].
    rewrite <- app_assoc.
    replace (c :: body ++ d :: rest) with (([c] ++ body ++ [d]) ++ rest)
      by (simpl; rewrite <- app_assoc; reflexivity).
    apply (resume_cons_step pre ([c] ++ body ++ [d]) rest).
  - destruct Hc as (Hclf & Hcsp & Hcl).
    rewrite (consumeChar_middle text pre c _ acc Ht).
    rewrite (single_neq_LF c Hclf).
    assert (Hs : str_eqb [c] [SPACE] = false)
      by (rewrite str_eqb_single; now apply N.eqb_neq).
    rewrite Hs. unfold isDelimiter in Hcl. rewrite Hcl.
    unfold bind at 1, consumePaste.
    rewrite (consumePaste_loop_unterminated R body text (pre ++ [c]));
      [ reflexivity | rewrite <- app_assoc; exact Ht | exact Hb
      | unfold iterations; subst text; rewrite length_app; simpl; lia].
  - destruct Hc as (Hclf & Hcsp & Hcl).
    rewrite (consumeChar_middle text pre c _ acc Ht).
    rewrite (single_neq_LF c Hclf).
    assert (Hs : str_eqb [c] [SPACE] = false)
      by (rewrite str_eqb_single; now apply N.eqb_neq).
    rewrite Hs. unfold isDelimiter in Hcl. rewrite Hcl.
    unfold bind at 1, consumePaste.
    rewrite (consumePaste_loop_newline R body text (pre ++ [c]) rest);
      [ reflexivity | rewrite <- app_assoc; exact Ht | exact Hb
      | unfold iterations; subst text;
        rewrite length_app; simpl; rewrite length_app; lia].
  - rewrite (consumeChar_middle text pre c rest acc Ht).
    rewrite (single_neq_LF c Hlf).
    assert (Hs : str_eqb [c] [SPACE] = false)
      by (rewrite str_eqb_single; now apply N.eqb_neq).
    rewrite Hs. unfold isDelimiter in Hl. rewrite Hl.
    unfold bind. rewrite addStep_after.
    rewrite (IH text (pre ++ [c]));
      [ | rewrite <- app_assoc; exact Ht | simpl in Hfuel; lia].
    apply (resume_cons_step pre [c] rest).
Qed.

End MainLoop.

(** Every text has tokens: it starts with a newline, a run of spaces, a
    paste region (closed, cut by the end or cut by a newline) or another
    character. *)
Lemma split_spaces (l : jsstring) :
  exists n rest, l = repeat SPACE n ++ rest /\ noLeadingSpace rest.
Proof.
  induction l as [|c l (n & rest & -> & Hrest)].
  - exists 0, []. simpl. auto.
  - destruct (N.eq_dec c SPACE) as [-> | Hc].
    + exists (S n), rest. auto.
    + exists 0, (c :: repeat SPACE n ++ rest). simpl. auto.
Qed.

Lemma pasteBody_nil R : pasteBody R [].
Proof. split; reflexivity. Qed.

Lemma pasteBody_cons_intro R c body :
  c <> LF -> isDelimiter R c = false -> pasteBody R body ->
  pasteBody R (c :: body).
Proof.
  unfold pasteBody. rewrite !contains_false, !containsDelimiter_false.
  cbn [In]. intros Hc Hd [Hb1 Hb2]. split.
  - intros [E | E]; [now apply Hc | now apply Hb1].
  - intros x [<- | Hx]; auto.
Qed.

Lemma split_paste R (l : jsstring) :
  pasteBody R l
  \/ (exists body rest, l = body ++ LF :: rest /\ pasteBody R body)
  \/ (exists body d rest,
        l = body ++ d :: rest /\ pasteBody R body /\
        d <> LF /\ isDelimiter R d = true).
Proof.
  induction l as [|c l IH].
  - left. apply pasteBody_nil.
  - destruct (N.eq_dec c LF) as [-> | Hc].
    + right; left. exists [], l. split; [reflexivity | apply pasteBody_nil].
    + destruct (isDelimiter R c) eqn:Hd.
      * right; right. exists [], c, l.
        repeat split; auto; apply pasteBody_nil.
      * destruct IH as [Hb | [(body & rest & -> & Hb)
                              | (body & d & rest & -> & Hb & Hlf & Hdd)]].
        -- left. now apply pasteBody_cons_intro.
        -- right; left. exists (c :: body), rest.
           split; [reflexivity | now apply pasteBody_cons_intro].
        -- right; right. exists (c :: body), d, rest.
           repeat split; auto.
           ++ apply (pasteBody_cons_intro R c body Hc Hd Hb).
           ++ apply (pasteBody_cons_intro R c body Hc Hd Hb).
Qed.

Lemma Tokens_total tgt L R (l : jsstring) : exists r, Tokens tgt L R l r.
Proof.
  remember (length l) as n eqn:Hn.
  revert l Hn. induction n as [n IH] using lt_wf_ind. intros l Hn.
  destruct l as [|c l].
  - eexists. constructor.
  - destruct (N.eq_dec c LF) as [-> | Hlf].
    { destruct (IH (length l)) with (l := l) as [r Hr];
        [simpl in Hn; lia | reflexivity |].
      eexists. constructor. exact Hr. }
    destruct (N.eq_dec c SPACE) as [-> | Hsp].
    { destruct (split_spaces l) as (k & rest & -> & Hrest).
      destruct (IH (length rest)) with (l := rest) as [r Hr];
        [simpl in Hn; rewrite length_app in Hn; lia | reflexivity |].
      eexists. apply (Tokens_spaces tgt L R k rest r Hrest Hr). }
    destruct (isDelimiter L c) eqn:Hl.
    + assert (Hc : opensPaste L c) by (repeat split; assumption).
      destruct (split_paste R l)
        as [Hb | [(body & rest & -> & Hb)
                 | (body & d & rest & -> & Hb & Hdlf & Hd)]].
      * eexists. apply (Tokens_unterminated tgt L R c l Hc Hb).
      * eexists. apply (Tokens_newline_in_paste tgt L R c body rest Hc Hb).
      * destruct (IH (length rest)) with (l := rest) as [r Hr];
          [simpl in Hn; rewrite length_app in Hn; simpl in Hn; lia
          | reflexivity |].
        eexists. apply (Tokens_paste tgt L R c body d rest r Hc Hb Hdlf Hd Hr).
    + destruct (IH (length l)) with (l := l) as [r Hr];
        [simpl in Hn; lia | reflexivity |].
      eexists. apply (Tokens_char tgt L R c l r Hlf Hsp Hl Hr).
Qed.

Lemma Tokens_not_exhausted tgt L R l r :
  Tokens tgt L R l r -> r <> OutOfFuel.
Proof.
  induction 1; try discriminate;
    match goal with
    | IH : ?r <> OutOfFuel |- cons_step _ ?r <> _ =>
        destruct r; simpl; congruence
    end.
Qed.

(** Every step of the grammar is a step [addStep] pushed. *)
Lemma Tokens_pushed tgt L R l r :
  Tokens tgt L R l r ->
  forall new, r = Returned new ->
    Forall (fun s => target s = tgt /\
                     startLineNumber s = None /\
                     startColumnIndex s = None) new.
Proof.
  induction 1; intros new E;
    try discriminate;
    try (injection E as <-; constructor);
    match goal with
    | IH : forall new, ?r = Returned new -> _ |- _ =>
        destruct r as [l0| |]; simpl in E; try discriminate;
        injection E as <-; constructor; [simpl; auto | apply IH; reflexivity]
    end.
Qed.

End TokenizerFacts.

(** [stepsForText] returns the tokens of the text, with the start position
    assigned to the first. *)
Lemma stepsForText_Tokens text tgt startLine startColumn pasteDelimiters r :
  Tokens tgt (leftDelimiter pasteDelimiters) (rightDelimiter pasteDelimiters)
         text r ->
  stepsForText text tgt startLine startColumn pasteDelimiters
  = assignStart startLine startColumn r.
Proof.
  intros H. unfold stepsForText, leftDelimiter, rightDelimiter in *.
  destruct (Tokenizer.delimiters pasteDelimiters) as [L R]. simpl in H.
  change (Tokenizer.mkScanner 0 []) with (scannerAfter [] []).
  rewrite (TokenizerFacts.mainLoop_Tokens tgt L R text r H text [] [] _ eq_refl)
    by (unfold Tokenizer.iterations; lia).
  destruct r; reflexivity.
Qed.

Lemma stepsForText_has_Tokens text tgt startLine startColumn pasteDelimiters :
  exists r,
    Tokens tgt (leftDelimiter pasteDelimiters) (rightDelimiter pasteDelimiters)
           text r /\
    stepsForText text tgt startLine startColumn pasteDelimiters
    = assignStart startLine startColumn r.
Proof.
  destruct (TokenizerFacts.Tokens_total tgt (leftDelimiter pasteDelimiters)
              (rightDelimiter pasteDelimiters) text) as [r Hr].
  exists r. split; [exact Hr | now apply stepsForText_Tokens].
Qed.

(** The loops of [stepsForText] never run out of the iterations they are
    given: the call returns or throws. *)
Lemma stepsForText_total text tgt startLine startColumn pasteDelimiters :
  stepsForText text tgt startLine startColumn pasteDelimiters <> OutOfFuel.
Proof.
  destruct (stepsForText_has_Tokens text tgt startLine startColumn
              pasteDelimiters) as (r & Hr & ->).
  apply TokenizerFacts.Tokens_not_exhausted in Hr.
  destruct r; simpl; congruence.
Qed.

(** ** Composition of token sequences *)

Lemma noTrailingSpace_suffix (a b : jsstring) :
  noTrailingSpace (a ++ b) -> noTrailingSpace b.
Proof.
  intros H p ->. apply (H (a ++ p)). apply app_assoc.
Qed.

Lemma repeat_snoc (c : codeUnit) (n : nat) :
  repeat c (S n) = repeat c n ++ [c].
Proof.
  induction n as [|n IH]; [reflexivity|].
  simpl in *. f_equal. exact IH.
Qed.

Lemma noLeadingSpace_app (a b : jsstring) :
  noLeadingSpace a -> (a = [] -> noLeadingSpace b) -> noLeadingSpace (a ++ b).
Proof. destruct a; simpl; auto. Qed.

Lemma cons_step_Returned s r l :
  cons_step s r = Returned l -> exists l', r = Returned l' /\ l = s :: l'.
Proof.
  destruct r as [l'| |]; simpl; try discriminate.
  intros E. injection E as <-. eauto.
Qed.

Lemma cons_step_Thrown s r e :
  cons_step s r = Thrown e -> r = Thrown e.
Proof. destruct r; simpl; congruence. Qed.

Lemma cons_step_prepend s l r :
  cons_step s (prepend l r) = prepend (s :: l) r.
Proof. destruct r; reflexivity. Qed.

Section Composition.
Variable tgt : StepTarget.
Variables L R : option jsstring.

Local Abbreviation Tokens := (Tokens tgt L R).

(** A text has one token sequence. *)
Lemma Tokens_fun l r1 r2 : Tokens l r1 -> Tokens l r2 -> r1 = r2.
Proof.
  intros H1 H2.
  pose proof (TokenizerFacts.Tokens_not_exhausted tgt L R l r1 H1) as N1.
  pose proof (TokenizerFacts.Tokens_not_exhausted tgt L R l r2 H2) as N2.
  pose proof (TokenizerFacts.mainLoop_Tokens tgt L R l r1 H1 l [] [] (S (length l))
                eq_refl (Nat.lt_succ_diag_r _)) as E1.
  pose proof (TokenizerFacts.mainLoop_Tokens tgt L R l r2 H2 l [] [] (S (length l))
                eq_refl (Nat.lt_succ_diag_r _)) as E2.
  rewrite E1 in E2.
  destruct r1, r2; simpl in E2; try congruence.
  injection E2 as E. f_equal. exact E.
Qed.

(** Tokens of a text followed by another: the sequences are concatenated,
    unless a run of spaces straddles the junction. *)
Lemma Tokens_app pre r1 :
  Tokens pre r1 ->
  forall s1 rest r,
    r1 = Returned s1 ->
    noTrailingSpace pre \/ noLeadingSpace rest ->
    Tokens rest r ->
    Tokens (pre ++ rest) (prepend s1 r).
Proof.
  induction 1 as [ | rest0 r0 _ IH | n rest0 r0 Hrest0 _ IH
                 | c body d rest0 r0 Hc Hb Hlf Hd _ IH
                 | c body Hc Hb | c body rest0 Hc Hb
                 | c rest0 r0 Hlf Hsp Hl _ IH ];
    intros s1 rest r E Hsep Hr; try discriminate.
  - injection E as <-. destruct r; exact Hr.
  - apply cons_step_Returned in E. destruct E as (s0 & -> & ->).
    rewrite <- cons_step_prepend. simpl. constructor.
    apply IH; auto.
    destruct Hsep as [Hsep | Hsep]; [left | right; exact Hsep].
    apply (noTrailingSpace_suffix [LF] rest0 Hsep).
  - apply cons_step_Returned in E. destruct E as (s0 & -> & ->).
    rewrite <- cons_step_prepend, <- app_assoc.
    constructor.
    + apply noLeadingSpace_app; [exact Hrest0 |].
      intros ->. destruct Hsep as [Hsep | Hsep]; [| exact Hsep].
      exfalso. apply (Hsep (repeat SPACE n)).
      rewrite app_nil_r. apply repeat_snoc.
    + apply IH; auto.
      destruct Hsep as [Hsep | Hsep]; [left | right; exact Hsep].
      apply (noTrailingSpace_suffix _ rest0 Hsep).
  - apply cons_step_Returned in E. destruct E as (s0 & -> & ->).
    rewrite <- cons_step_prepend. simpl. rewrite <- app_assoc. simpl.
    constructor; auto.
    apply IH; auto.
    destruct Hsep as [Hsep | Hsep]; [left | right; exact Hsep].
    apply (noTrailingSpace_suffix (c :: body ++ [d]) rest0).
    simpl. rewrite <- app_assoc. exact Hsep.
  - apply cons_step_Returned in E. destruct E as (s0 & -> & ->).
    rewrite <- cons_step_prepend. simpl. constructor; auto.
    apply IH; auto.
    destruct Hsep as [Hsep | Hsep]; [left | right; exact Hsep].
    apply (noTrailingSpace_suffix [c] rest0 Hsep).
Qed.

(** Conversely, behind a prefix that has tokens of its own the rest has
    the remaining tokens. *)
Lemma Tokens_app_inv pre rest s1 s :
  Tokens pre (Returned s1) ->
  noTrailingSpace pre \/ noLeadingSpace rest ->
  Tokens (pre ++ rest) (Returned s) ->
  exists s2, Tokens rest (Returned s2) /\ s = s1 ++ s2.
Proof.
  intros Hpre Hsep Hall.
  destruct (TokenizerFacts.Tokens_total tgt L R rest) as [r Hr].
  pose proof (Tokens_app pre (Returned s1) Hpre s1 rest r eq_refl Hsep Hr) as Happ.
  pose proof (Tokens_fun _ _ _ Hall Happ) as E.
  destruct r as [s2| |]; simpl in E; try discriminate.
  injection E as ->. exists s2. auto.
Qed.

(** Without a left delimiter in the text nothing is thrown and the values
    of the steps spell the text. *)
Lemma Tokens_concat l r :
  Tokens l r ->
  containsDelimiter L l = false ->
  exists new, r = Returned new /\ concat (map value new) = l.
Proof.
  induction 1 as [ | rest0 r0 _ IH | n rest0 r0 Hrest0 _ IH
                 | c body d rest0 r0 Hc Hb Hlf Hd _ IH
                 | c body Hc Hb | c body rest0 Hc Hb
                 | c rest0 r0 Hlf Hsp Hl _ IH ];
    intros Hno.
  - exists []. auto.
  - change (LF :: rest0) with ([LF] ++ rest0) in Hno.
    rewrite containsDelimiter_app in Hno. apply orb_false_iff in Hno.
    destruct (IH (proj2 Hno)) as (new & -> & E).
    eexists. split; [reflexivity|]. simpl. now rewrite E.
  - rewrite containsDelimiter_app in Hno. apply orb_false_iff in Hno.
    destruct (IH (proj2 Hno)) as (new & -> & E).
    eexists. split; [reflexivity|].
    cbn [cons_step map concat pushed value]. now rewrite E.
  - exfalso. destruct Hc as (_ & _ & Hc). simpl in Hno.
    rewrite Hc in Hno. discriminate.
  - exfalso. destruct Hc as (_ & _ & Hc). simpl in Hno.
    rewrite Hc in Hno. discriminate.
  - exfalso. destruct Hc as (_ & _ & Hc). simpl in Hno.
    rewrite Hc in Hno. discriminate.
  - change (c :: rest0) with ([c] ++ rest0) in Hno.
    rewrite containsDelimiter_app in Hno. apply orb_false_iff in Hno.
    destruct (IH (proj2 Hno)) as (new & -> & E).
    eexists. split; [reflexivity|]. simpl. now rewrite E.
Qed.

End Composition.

Lemma setStart_values startLine startColumn l :
  map value (Tokenizer.setStart startLine startColumn l) = map value l.
Proof. destruct l; reflexivity. Qed.

Lemma setStart_kinds startLine startColumn l :
  map kind (Tokenizer.setStart startLine startColumn l) = map kind l.
Proof. destruct l; reflexivity. Qed.

Lemma assignStart_Returned startLine startColumn r l :
  assignStart startLine startColumn r = Returned l ->
  exists l0, r = Returned l0 /\ l = Tokenizer.setStart startLine startColumn l0.
Proof.
  destruct r as [l0| |]; simpl; try discriminate.
  intros E. injection E as <-. eauto.
Qed.

Lemma assignStart_Thrown startLine startColumn r e :
  assignStart startLine startColumn r = Thrown e <-> r = Thrown e.
Proof. destruct r; simpl; split; congruence. Qed.

(** ** Where the tokenizer throws *)

Section Failures.
Variable tgt : StepTarget.
Variables L R : option jsstring.

Local Abbreviation Tokens := (Tokens tgt L R).

Lemma Tokens_cutPaste c tail e :
  opensPaste L c -> cutPaste R e tail -> Tokens (c :: tail) (Thrown e).
Proof.
  intros Hc Hcut. destruct e; simpl in Hcut.
  - now constructor.
  - destruct Hcut as (body & rest & -> & Hb). now constructor.
Qed.

(** A throw happens in a paste region opened behind a prefix that has
    tokens of its own. *)
Lemma Tokens_Thrown_inv l r :
  Tokens l r ->
  forall e, r = Thrown e ->
    exists pre c tail s,
      l = pre ++ c :: tail /\ Tokens pre (Returned s) /\
      opensPaste L c /\ cutPaste R e tail.
Proof.
  induction 1 as [ | rest0 r0 H0 IH | n rest0 r0 Hrest0 H0 IH
                 | c body d rest0 r0 Hc Hb Hlf Hd H0 IH
                 | c body Hc Hb | c body rest0 Hc Hb
                 | c rest0 r0 Hlf Hsp Hl H0 IH ];
    intros e E; try discriminate.
  - apply cons_step_Thrown in E.
    destruct (IH e E) as (pre & c & tail & s & -> & Hpre & Hc & Hcut).
    exists (LF :: pre), c, tail, (pushed tgt INSERT_NEWLINE [LF] :: s).
    refine (conj eq_refl (conj _ (conj Hc Hcut))).
    apply (Tokens_newline tgt L R pre (Returned s) Hpre).
  - apply cons_step_Thrown in E.
    destruct (IH e E) as (pre & c & tail & s & -> & Hpre & Hc & Hcut).
    exists (repeat SPACE (S n) ++ pre), c, tail,
      (pushed tgt INSERT_TEXT (repeat SPACE (S n)) :: s).
    refine (conj (app_assoc _ _ _) (conj _ (conj Hc Hcut))).
    apply (Tokens_spaces tgt L R n pre (Returned s)); [| exact Hpre].
    destruct pre; simpl in *; auto.
  - apply cons_step_Thrown in E.
    destruct (IH e E) as (pre & c' & tail & s & -> & Hpre & Hc' & Hcut).
    exists (c :: body ++ d :: pre), c', tail,
      (pushed tgt INSERT_PASTED_TEXT body :: s).
    refine (conj _ (conj _ (conj Hc' Hcut))).
    + simpl. rewrite <- app_assoc. reflexivity.
    + apply (Tokens_paste tgt L R c body d pre (Returned s)); auto.
  - injection E as <-. exists [], c, body, [].
    refine (conj eq_refl (conj _ (conj Hc Hb))). constructor.
  - injection E as <-. exists [], c, (body ++ LF :: rest0), [].
    refine (conj eq_refl (conj _ (conj Hc _))); [constructor|].
    exists body, rest0. auto.
  - apply cons_step_Thrown in E.
    destruct (IH e E) as (pre & c' & tail & s & -> & Hpre & Hc' & Hcut).
    exists (c :: pre), c', tail, (pushed tgt INSERT_TEXT [c] :: s).
    refine (conj eq_refl (conj _ (conj Hc' Hcut))).
    apply (Tokens_char tgt L R c pre (Returned s)); auto.
Qed.

Lemma Tokens_Thrown_intro pre s c tail e :
  Tokens pre (Returned s) -> opensPaste L c -> cutPaste R e tail ->
  Tokens (pre ++ c :: tail) (Thrown e).
Proof.
  intros Hpre Hc Hcut.
  apply (Tokens_app tgt L R pre (Returned s) Hpre s (c :: tail) (Thrown e) eq_refl).
  - right. simpl. apply Hc.
  - now apply Tokens_cutPaste.
Qed.

End Failures.

Lemma returnsOn_Tokens text tgt pd :
  returnsOn text tgt pd <->
  exists s, Tokens tgt (leftDelimiter pd) (rightDelimiter pd) text (Returned s).
Proof.
  unfold returnsOn. split.
  - intros (s & E).
    destruct (stepsForText_has_Tokens text tgt None None pd) as (r & Hr & E').
    rewrite E' in E. apply assignStart_Returned in E.
    destruct E as (s0 & -> & _). eauto.
  - intros (s & Hs). eexists.
    rewrite (stepsForText_Tokens text tgt None None pd (Returned s) Hs).
    reflexivity.
Qed.

Lemma stepsForText_Thrown_iff text tgt startLine startColumn pd e :
  stepsForText text tgt startLine startColumn pd = Thrown e <->
  exists pre c tail,
    text = pre ++ c :: tail /\ returnsOn pre tgt pd /\
    opensPaste (leftDelimiter pd) c /\ cutPaste (rightDelimiter pd) e tail.
Proof.
  split.
  - intros E.
    destruct (stepsForText_has_Tokens text tgt startLine startColumn pd)
      as (r & Hr & E').
    rewrite E' in E. apply assignStart_Thrown in E.
    destruct (Tokens_Thrown_inv tgt _ _ text r Hr e E)
      as (pre & c & tail & s & Ht & Hpre & Hc & Hcut).
    exists pre, c, tail.
    refine (conj Ht (conj _ (conj Hc Hcut))).
    apply returnsOn_Tokens. eauto.
  - intros (pre & c & tail & -> & Hpre & Hc & Hcut).
    apply returnsOn_Tokens in Hpre. destruct Hpre as (s & Hs).
    rewrite (stepsForText_Tokens (pre ++ c :: tail) tgt startLine startColumn pd
               (Thrown e)); [reflexivity|].
    apply (Tokens_Thrown_intro tgt _ _ pre s c tail e Hs Hc Hcut).
Qed.

(** ** Runs of spaces and newlines inside a text *)

Lemma startsWithSpace_false s : startsWithSpace s = false <-> noLeadingSpace s.
Proof. destruct s as [|c s]; simpl; [tauto | apply N.eqb_neq]. Qed.

Lemma endsWithSpace_false s : endsWithSpace s = false <-> noTrailingSpace s.
Proof.
  unfold endsWithSpace, noTrailingSpace. split.
  - intros H p ->. rewrite rev_app_distr in H. discriminate H.
  - intros H. destruct (rev s) as [|c l] eqn:E; [reflexivity|].
    simpl. apply N.eqb_neq. intros ->.
    apply (H (rev l)). rewrite <- (rev_involutive s), E. reflexivity.
Qed.

Lemma app_eq_split (a b pre post : jsstring) (x : codeUnit) :
  a ++ b = pre ++ x :: post -> ~ In x a ->
  exists pre0, pre = a ++ pre0 /\ b = pre0 ++ x :: post.
Proof.
  revert pre. induction a as [|y a IH]; intros pre E Hx.
  - exists pre. auto.
  - destruct pre as [|y' pre]; simpl in E; injection E as -> E.
    + exfalso. apply Hx. now left.
    + destruct (IH pre E) as (pre0 & -> & ->).
      * intros Hin. apply Hx. now right.
      * exists pre0. auto.
Qed.

Lemma LF_not_in_spaces n : ~ In LF (repeat SPACE n).
Proof. intros H. apply repeat_spec in H. discriminate H. Qed.

Section Newlines.
Variable tgt : StepTarget.
Variables L R : option jsstring.

Local Abbreviation Tokens := (Tokens tgt L R).

Lemma LF_not_in_paste c body d :
  opensPaste L c -> pasteBody R body -> d <> LF ->
  ~ In LF (c :: body ++ [d]).
Proof.
  intros (Hc & _) (Hb & _) Hd. apply contains_false in Hb.
  simpl. rewrite in_app_iff. simpl. intuition.
Qed.

(** A newline of a text that has tokens separates the tokens of what is
    before it from the tokens of what is behind it. *)
Lemma Tokens_split_newline l r :
  Tokens l r ->
  forall pre post s,
    l = pre ++ LF :: post -> r = Returned s ->
    exists s1 s2,
      Tokens pre (Returned s1) /\ Tokens post (Returned s2) /\
      s = s1 ++ pushed tgt INSERT_NEWLINE [LF] :: s2.
Proof.
  induction 1 as [ | rest0 r0 H0 IH | n rest0 r0 Hrest0 H0 IH
                 | c body d rest0 r0 Hc Hb Hlf Hd H0 IH
                 | c body Hc Hb | c body rest0 Hc Hb
                 | c rest0 r0 Hlf Hsp Hl H0 IH ];
    intros pre post s Ht E; try discriminate.
  - destruct pre; discriminate.
  - apply cons_step_Returned in E. destruct E as (s0 & -> & ->).
    destruct pre as [|x pre]; simpl in Ht.
    + injection Ht as ->. exists [], s0. repeat split; auto. constructor.
    + injection Ht as <- Ht.
      destruct (IH pre post s0 Ht eq_refl) as (s1 & s2 & H1 & H2 & ->).
      exists (pushed tgt INSERT_NEWLINE [LF] :: s1), s2. repeat split; auto.
      apply (Tokens_newline tgt L R pre (Returned s1) H1).
  - apply cons_step_Returned in E. destruct E as (s0 & -> & ->).
    destruct (app_eq_split _ _ _ _ _ Ht (LF_not_in_spaces (S n)))
      as (pre0 & -> & Hrest).
    destruct (IH pre0 post s0 Hrest eq_refl) as (s1 & s2 & H1 & H2 & ->).
    exists (pushed tgt INSERT_TEXT (repeat SPACE (S n)) :: s1), s2.
    repeat split; auto.
    apply (Tokens_spaces tgt L R n pre0 (Returned s1)); [| exact H1].
    subst rest0. destruct pre0; simpl in *; auto.
  - apply cons_step_Returned in E. destruct E as (s0 & -> & ->).
    assert (Ht' : (c :: body ++ [d]) ++ rest0 = pre ++ LF :: post)
      by (simpl; rewrite <- app_assoc; exact Ht).
    destruct (app_eq_split _ _ _ _ _ Ht' (LF_not_in_paste c body d Hc Hb Hlf))
      as (pre0 & -> & Hrest).
    destruct (IH pre0 post s0 Hrest eq_refl) as (s1 & s2 & H1 & H2 & ->).
    exists (pushed tgt INSERT_PASTED_TEXT body :: s1), s2.
    repeat split; auto.
    simpl. rewrite <- app_assoc. simpl.
    apply (Tokens_paste tgt L R c body d pre0 (Returned s1)); auto.
  - apply cons_step_Returned in E. destruct E as (s0 & -> & ->).
    assert (Hc : ~ In LF [c]) by (simpl; intuition).
    destruct (app_eq_split [c] rest0 pre post LF Ht Hc) as (pre0 & -> & Hrest).
    destruct (IH pre0 post s0 Hrest eq_refl) as (s1 & s2 & H1 & H2 & ->).
    exists (pushed tgt INSERT_TEXT [c] :: s1), s2.
    repeat split; auto.
    apply (Tokens_char tgt L R c pre0 (Returned s1)); auto.
Qed.

Lemma count_occ_LF_absent (a : jsstring) :
  ~ In LF a -> count_occ N.eq_dec a LF = 0.
Proof. apply count_occ_not_In. Qed.

(** As many newline steps as newlines, each with the value "\n". *)
Lemma Tokens_count_newlines l r :
  Tokens l r ->
  forall s, r = Returned s ->
    length (filter isNewlineStep s) = count_occ N.eq_dec l LF /\
    Forall (fun x => kind x = INSERT_NEWLINE -> value x = [LF]) s.
Proof.
  induction 1 as [ | rest0 r0 H0 IH | n rest0 r0 Hrest0 H0 IH
                 | c body d rest0 r0 Hc Hb Hlf Hd H0 IH
                 | c body Hc Hb | c body rest0 Hc Hb
                 | c rest0 r0 Hlf Hsp Hl H0 IH ];
    intros s E; try discriminate.
  - injection E as <-. split; [reflexivity | constructor].
  - apply cons_step_Returned in E. destruct E as (s0 & -> & ->).
    destruct (IH s0 eq_refl) as (Hn & Hv).
    split; [| constructor; auto].
    cbn [filter isNewlineStep pushed kind kind_eqb length].
    rewrite Hn. rewrite count_occ_cons_eq by reflexivity. reflexivity.
  - apply cons_step_Returned in E. destruct E as (s0 & -> & ->).
    destruct (IH s0 eq_refl) as (Hn & Hv).
    split; [| constructor; [discriminate | auto]].
    cbn [filter isNewlineStep pushed kind kind_eqb].
    rewrite Hn, count_occ_app.
    rewrite (count_occ_LF_absent _ (LF_not_in_spaces (S n))). reflexivity.
  - apply cons_step_Returned in E. destruct E as (s0 & -> & ->).
    destruct (IH s0 eq_refl) as (Hn & Hv).
    split; [| constructor; [discriminate | auto]].
    cbn [filter isNewlineStep pushed kind kind_eqb].
    replace (c :: body ++ d :: rest0) with ((c :: body ++ [d]) ++ rest0)
      by (simpl; rewrite <- app_assoc; reflexivity).
    rewrite Hn, count_occ_app.
    rewrite (count_occ_LF_absent _ (LF_not_in_paste c body d Hc Hb Hlf)).
    reflexivity.
  - apply cons_step_Returned in E. destruct E as (s0 & -> & ->).
    destruct (IH s0 eq_refl) as (Hn & Hv).
    split; [| constructor; [discriminate | auto]].
    cbn [filter isNewlineStep pushed kind kind_eqb].
    rewrite Hn. rewrite count_occ_cons_neq by exact Hlf. reflexivity.
Qed.

End Newlines.

Lemma stepsForText_raw text tgt pasteDelimiters s :
  Tokens tgt (leftDelimiter pasteDelimiters) (rightDelimiter pasteDelimiters)
         text (Returned s) ->
  stepsForText text tgt None None pasteDelimiters = Returned s.
Proof.
  intros H.
  rewrite (stepsForText_Tokens text tgt None None pasteDelimiters (Returned s) H).
  pose proof (TokenizerFacts.Tokens_pushed tgt _ _ text (Returned s) H s eq_refl)
    as Hs.
  destruct s as [|first rest]; [reflexivity |].
  inversion Hs as [|? ? (_ & Hl & Hc) _]; subst.
  destruct first; simpl in *; subst; reflexivity.
Qed.

Lemma setStart_newline_steps startLine startColumn l :
  length (filter isNewlineStep (Tokenizer.setStart startLine startColumn l))
  = length (filter isNewlineStep l).
Proof.
  destruct l as [|first rest]; [reflexivity |].
  destruct first as [k t a b v]. simpl. unfold isNewlineStep. simpl.
  destruct k; reflexivity.
Qed.

(** * Properties of the tokenizer *)

(** C1. For every text that contains neither the left nor the right paste
    delimiter character, [stepsForText] returns, and the [value] fields of
    the returned steps, concatenated in order, are the text. *)
Theorem stepsForText_values_spell_text
        (text : jsstring) (tgt : StepTarget) (startLine startColumn : option Z)
        (pasteDelimiters : option (list jsstring)) :
  containsDelimiter (leftDelimiter pasteDelimiters) text = false ->
  containsDelimiter (rightDelimiter pasteDelimiters) text = false ->
  exists produced,
    stepsForText text tgt startLine startColumn pasteDelimiters
    = Returned produced /\
    concat (map value produced) = text.
Proof.
  intros Hleft _.
  destruct (stepsForText_has_Tokens text tgt startLine startColumn
              pasteDelimiters) as (r & Hr & E).
  destruct (Tokens_concat tgt _ _ text r Hr Hleft) as (new & -> & Hnew).
  exists (Tokenizer.setStart startLine startColumn new).
  split; [exact E |]. rewrite setStart_values. exact Hnew.
Qed.

Lemma stepsForText_values_spell_text_witness :
  containsDelimiter (leftDelimiter None) (js "def  f(x):" ++ [LF] ++ js "  y") = false /\
  containsDelimiter (rightDelimiter None) (js "def  f(x):" ++ [LF] ++ js "  y") = false /\
  exists produced,
    stepsForText (js "def  f(x):" ++ [LF] ++ js "  y") EDITOR (Some 1%Z) (Some 1%Z) None
    = Returned produced /\
    concat (map value produced) = js "def  f(x):" ++ [LF] ++ js "  y".
Proof.
  split; [reflexivity | split; [reflexivity |]].
  apply (stepsForText_values_spell_text
           (js "def  f(x):" ++ [LF] ++ js "  y") EDITOR (Some 1%Z) (Some 1%Z) None);
    reflexivity.
Defined.

(** C5. When [stepsForText] returns a non-empty sequence, its first step
    holds the [startLineNumber] and [startColumnIndex] arguments (which may
    be [undefined]) and no other step holds a position. *)
Theorem stepsForText_start_on_first_only
        (text : jsstring) (tgt : StepTarget) (startLine startColumn : option Z)
        (pasteDelimiters : option (list jsstring))
        (produced : list DeltaStep) :
  stepsForText text tgt startLine startColumn pasteDelimiters
  = Returned produced ->
  produced <> [] ->
  exists first rest,
    produced = first :: rest /\
    startLineNumber first = startLine /\
    startColumnIndex first = startColumn /\
    Forall (fun s => startLineNumber s = None /\ startColumnIndex s = None)
           rest.
Proof.
  intros E Hne.
  destruct (stepsForText_has_Tokens text tgt startLine startColumn
              pasteDelimiters) as (r & Hr & E').
  rewrite E' in E. apply assignStart_Returned in E.
  destruct E as (raw & -> & ->).
  pose proof (TokenizerFacts.Tokens_pushed tgt _ _ text (Returned raw) Hr raw
                eq_refl) as Hraw.
  destruct raw as [|first rest]; [now elim Hne |].
  simpl. eexists. exists rest. repeat split.
  inversion Hraw as [|? ? _ Hrest]; subst.
  eapply Forall_impl; [| exact Hrest]. simpl. tauto.
Qed.

Lemma stepsForText_start_on_first_only_witness :
  stepsForText (js "ab") EDITOR (Some 3%Z) (Some 5%Z) None
  = Returned [mkDeltaStep INSERT_TEXT EDITOR (Some 3%Z) (Some 5%Z) (js "a");
              mkDeltaStep INSERT_TEXT EDITOR None None (js "b")] /\
  exists first rest,
    [mkDeltaStep INSERT_TEXT EDITOR (Some 3%Z) (Some 5%Z) (js "a");
     mkDeltaStep INSERT_TEXT EDITOR None None (js "b")] = first :: rest /\
    startLineNumber first = Some 3%Z /\
    startColumnIndex first = Some 5%Z /\
    Forall (fun s => startLineNumber s = None /\ startColumnIndex s = None)
           rest.
Proof.
  split; [reflexivity |].
  apply (stepsForText_start_on_first_only (js "ab") EDITOR (Some 3%Z)
           (Some 5%Z) None).
  - reflexivity.
  - discriminate.
Defined.

Lemma containsDelimiter_single (r : codeUnit) (s : jsstring) :
  containsDelimiter (Some [r]) s = contains r s.
Proof.
  unfold containsDelimiter, contains, isDelimiter, strictEq.
  induction s as [|c s IH]; cbn [existsb]; [reflexivity |].
  rewrite IH. f_equal. cbn [str_eqb]. rewrite andb_true_r. apply N.eqb_sym.
Qed.

(** C3, as the code has it.  When the left delimiter is one character that
    is neither a newline nor a space and the right delimiter is one
    character that is not a newline, then for every body without a newline
    and without the right delimiter (the empty body too) the text
    left + body + right gives exactly one step: an INSERT_PASTED_TEXT step
    whose value is the body, without either delimiter. *)
Theorem stepsForText_paste_region
        (l r : codeUnit) (body : jsstring) (tgt : StepTarget)
        (startLine startColumn : option Z)
        (pasteDelimiters : option (list jsstring)) :
  leftDelimiter pasteDelimiters = Some [l] ->
  rightDelimiter pasteDelimiters = Some [r] ->
  l <> LF -> l <> SPACE -> r <> LF ->
  contains LF body = false ->
  contains r body = false ->
  stepsForText ([l] ++ body ++ [r]) tgt startLine startColumn pasteDelimiters
  = Returned [mkDeltaStep INSERT_PASTED_TEXT tgt startLine startColumn body].
Proof.
  intros HL HR Hl1 Hl2 Hr Hnl Hbody.
  rewrite (stepsForText_Tokens ([l] ++ body ++ [r]) tgt startLine startColumn
             pasteDelimiters
             (cons_step (pushed tgt INSERT_PASTED_TEXT body) (Returned [])));
    [reflexivity |].
  rewrite HL, HR.
  apply (Tokens_paste tgt (Some [l]) (Some [r]) l body r [] (Returned [])).
  - repeat split; auto. now apply isDelimiter_true.
  - split; [exact Hnl |]. now rewrite containsDelimiter_single.
  - exact Hr.
  - now apply isDelimiter_true.
  - constructor.
Qed.

Lemma stepsForText_paste_region_witness :
  stepsForText ([LAQUO] ++ js "abc" ++ [RAQUO]) EDITOR None None None
  = Returned [mkDeltaStep INSERT_PASTED_TEXT EDITOR None None (js "abc")].
Proof.
  apply (stepsForText_paste_region LAQUO RAQUO (js "abc") EDITOR None None None);
    (reflexivity || discriminate).
Defined.

(** C3 as stated fails for delimiters that the scan tests for earlier: a
    right delimiter that is a newline makes the paste loop throw, and a left
    delimiter that is a space or a newline never opens a paste. *)
Lemma paste_region_delimiter_clash :
  let claimed := Returned [mkDeltaStep INSERT_PASTED_TEXT EDITOR None None
                                       (js "abc")] in
  (contains LF (js "abc") = false /\
   stepsForText ([LAQUO] ++ js "abc" ++ [LF]) EDITOR None None
                (Some [[LAQUO]; [LF]])
   = Thrown NewlineInPaste /\
   stepsForText ([LAQUO] ++ js "abc" ++ [LF]) EDITOR None None
                (Some [[LAQUO]; [LF]])
   <> claimed) /\
  (contains LF (js "abc") = false /\ contains RAQUO (js "abc") = false /\
   stepsForText ([SPACE] ++ js "abc" ++ [RAQUO]) EDITOR None None
                (Some [[SPACE]; [RAQUO]])
   = Returned [mkDeltaStep INSERT_TEXT EDITOR None None [SPACE];
               mkDeltaStep INSERT_TEXT EDITOR None None (js "a");
               mkDeltaStep INSERT_TEXT EDITOR None None (js "b");
               mkDeltaStep INSERT_TEXT EDITOR None None (js "c");
               mkDeltaStep INSERT_TEXT EDITOR None None [RAQUO]] /\
   stepsForText ([SPACE] ++ js "abc" ++ [RAQUO]) EDITOR None None
                (Some [[SPACE]; [RAQUO]])
   <> claimed) /\
  (stepsForText ([LF] ++ js "abc" ++ [RAQUO]) EDITOR None None
                (Some [[LF]; [RAQUO]])
   = Returned [mkDeltaStep INSERT_NEWLINE EDITOR None None [LF];
               mkDeltaStep INSERT_TEXT EDITOR None None (js "a");
               mkDeltaStep INSERT_TEXT EDITOR None None (js "b");
               mkDeltaStep INSERT_TEXT EDITOR None None (js "c");
               mkDeltaStep INSERT_TEXT EDITOR None None [RAQUO]] /\
   stepsForText ([LF] ++ js "abc" ++ [RAQUO]) EDITOR None None
                (Some [[LF]; [RAQUO]])
   <> claimed).
Proof.
  repeat split; try reflexivity; vm_compute; discriminate.
Qed.

(** C4. [stepsForText] throws "Unterminated paste" exactly when the main
    loop consumes a left delimiter and the paste loop then reaches the end
    of the text, having met neither a newline nor the right delimiter; it
    throws "Newline not allowed in paste" exactly when the paste loop meets
    a newline before the right delimiter.  The main loop consumes [c] as a
    left delimiter when the text before [c] tokenizes on its own and [c]
    passes the newline and space tests.  A call that throws returns no
    steps. *)
Theorem stepsForText_paste_errors
        (text : jsstring) (tgt : StepTarget) (startLine startColumn : option Z)
        (pasteDelimiters : option (list jsstring)) :
  (stepsForText text tgt startLine startColumn pasteDelimiters
   = Thrown UnterminatedPaste
   <->
   exists pre c body,
     text = pre ++ c :: body /\
     returnsOn pre tgt pasteDelimiters /\
     opensPaste (leftDelimiter pasteDelimiters) c /\
     pasteBody (rightDelimiter pasteDelimiters) body)
  /\
  (stepsForText text tgt startLine startColumn pasteDelimiters
   = Thrown NewlineInPaste
   <->
   exists pre c body rest,
     text = pre ++ c :: body ++ LF :: rest /\
     returnsOn pre tgt pasteDelimiters /\
     opensPaste (leftDelimiter pasteDelimiters) c /\
     pasteBody (rightDelimiter pasteDelimiters) body)
  /\
  (forall e produced,
     stepsForText text tgt startLine startColumn pasteDelimiters = Thrown e ->
     stepsForText text tgt startLine startColumn pasteDelimiters
     <> Returned produced).
Proof.
  split; [| split].
  - rewrite stepsForText_Thrown_iff. simpl. reflexivity.
  - rewrite stepsForText_Thrown_iff. simpl. split.
    + intros (pre & c & tail & Ht & Hpre & Hc & body & rest & -> & Hb).
      exists pre, c, body, rest. auto.
    + intros (pre & c & body & rest & Ht & Hpre & Hc & Hb).
      exists pre, c, (body ++ LF :: rest). repeat split; try apply Hc; auto.
      exists body, rest. auto.
  - intros e produced -> . discriminate.
Qed.

Lemma stepsForText_paste_errors_witness :
  stepsForText ([LAQUO] ++ js "abc") EDITOR None None None
  = Thrown UnterminatedPaste /\
  stepsForText ([LAQUO] ++ js "ab" ++ [LF] ++ js "c" ++ [RAQUO]) EDITOR None
               None None
  = Thrown NewlineInPaste.
Proof.
  split.
  - apply (proj1 (stepsForText_paste_errors ([LAQUO] ++ js "abc") EDITOR None
                    None None)).
    exists [], LAQUO, (js "abc").
    split; [reflexivity | split; [| split]].
    + eexists. reflexivity.
    + repeat split; discriminate || reflexivity.
    + split; reflexivity.
  - apply (proj1 (proj2 (stepsForText_paste_errors
                    ([LAQUO] ++ js "ab" ++ [LF] ++ js "c" ++ [RAQUO]) EDITOR
                    None None None))).
    exists [], LAQUO, (js "ab"), (js "c" ++ [RAQUO]).
    split; [reflexivity | split; [| split]].
    + eexists. reflexivity.
    + repeat split; discriminate || reflexivity.
    + split; reflexivity.
Defined.

(** C9, as the code has it.  On every text on which [stepsForText] returns,
    each newline of the text gives exactly one INSERT_NEWLINE step with
    value "\n": the step stands between the steps of the text before the
    newline and the steps of the text behind it, there are as many
    INSERT_NEWLINE steps as newlines, and each has the value "\n". *)
Theorem stepsForText_newline_steps
        (text : jsstring) (tgt : StepTarget) (startLine startColumn : option Z)
        (pasteDelimiters : option (list jsstring))
        (produced : list DeltaStep) :
  stepsForText text tgt startLine startColumn pasteDelimiters
  = Returned produced ->
  (forall pre post,
     text = pre ++ LF :: post ->
     exists before behind,
       stepsForText pre tgt None None pasteDelimiters = Returned before /\
       stepsForText post tgt None None pasteDelimiters = Returned behind /\
       produced
       = Tokenizer.setStart startLine startColumn
           (before ++ [mkDeltaStep INSERT_NEWLINE tgt None None [LF]] ++ behind))
  /\ length (filter isNewlineStep produced) = count_occ N.eq_dec text LF
  /\ Forall (fun s => kind s = INSERT_NEWLINE -> value s = [LF]) produced.
Proof.
  intros E.
  destruct (stepsForText_has_Tokens text tgt startLine startColumn
              pasteDelimiters) as (r & Hr & E').
  rewrite E' in E. apply assignStart_Returned in E.
  destruct E as (raw & -> & ->).
  split; [| split].
  - intros pre post Ht.
    destruct (Tokens_split_newline tgt _ _ text (Returned raw) Hr pre post raw
                Ht eq_refl) as (s1 & s2 & H1 & H2 & ->).
    exists s1, s2. split; [| split].
    + apply (stepsForText_raw pre tgt pasteDelimiters s1 H1).
    + apply (stepsForText_raw post tgt pasteDelimiters s2 H2).
    + reflexivity.
  - destruct (Tokens_count_newlines tgt _ _ text (Returned raw) Hr raw eq_refl)
      as (Hn & _).
    rewrite <- Hn. apply setStart_newline_steps.
  - destruct (Tokens_count_newlines tgt _ _ text (Returned raw) Hr raw eq_refl)
      as (_ & Hv).
    destruct raw as [|first rest]; [constructor |].
    inversion Hv; subst. constructor; auto.
Qed.

Lemma stepsForText_newline_steps_witness :
  let text := js "a" ++ [LF] ++ [LAQUO] ++ js "p q" ++ [RAQUO] ++ [LF] ++ js "b" in
  exists produced,
    stepsForText text REPL (Some 1%Z) (Some 1%Z) None = Returned produced /\
    length (filter isNewlineStep produced) = 2.
Proof.
  eexists. split; [reflexivity |].
  apply (stepsForText_newline_steps
           (js "a" ++ [LF] ++ [LAQUO] ++ js "p q" ++ [RAQUO] ++ [LF] ++ js "b")
           REPL (Some 1%Z) (Some 1%Z) None _ eq_refl).
Defined.

(** C9 as stated fails on rejected texts: a text that is rejected has
    newlines and no steps at all, whether the newline is in the paste
    region or before it. *)
Lemma newline_in_rejected_text :
  (contains LF ([LAQUO] ++ js "ab" ++ [LF] ++ js "c" ++ [RAQUO]) = true /\
   stepsForText ([LAQUO] ++ js "ab" ++ [LF] ++ js "c" ++ [RAQUO]) EDITOR None
                None None
   = Thrown NewlineInPaste /\
   forall produced,
     stepsForText ([LAQUO] ++ js "ab" ++ [LF] ++ js "c" ++ [RAQUO]) EDITOR None
                  None None
     <> Returned produced) /\
  (contains LF (js "a" ++ [LF] ++ [LAQUO] ++ js "b") = true /\
   stepsForText (js "a" ++ [LF] ++ [LAQUO] ++ js "b") EDITOR None None None
   = Thrown UnterminatedPaste /\
   forall produced,
     stepsForText (js "a" ++ [LF] ++ [LAQUO] ++ js "b") EDITOR None None None
     <> Returned produced).
Proof.
  repeat split; try reflexivity; intros produced; vm_compute; discriminate.
Qed.

(** C2, as the code has it.  A maximal run of one or more spaces that does
    not lie in a paste region (the text before the run tokenizes on its
    own) gives, in the output, exactly one INSERT_TEXT step whose value is
    the whole run: the step stands between the steps of the text before the
    run and the steps of the text behind it. *)
Theorem stepsForText_space_run
        (pre post : jsstring) (n : nat) (tgt : StepTarget)
        (startLine startColumn : option Z)
        (pasteDelimiters : option (list jsstring))
        (before produced : list DeltaStep) :
  endsWithSpace pre = false ->
  startsWithSpace post = false ->
  stepsForText pre tgt None None pasteDelimiters = Returned before ->
  stepsForText (pre ++ repeat SPACE (S n) ++ post) tgt startLine startColumn
               pasteDelimiters
  = Returned produced ->
  exists behind,
    stepsForText post tgt None None pasteDelimiters = Returned behind /\
    produced
    = Tokenizer.setStart startLine startColumn
        (before ++ [mkDeltaStep INSERT_TEXT tgt None None (repeat SPACE (S n))]
                ++ behind).
Proof.
  intros Hpre Hpost Ebefore E.
  apply endsWithSpace_false in Hpre. apply startsWithSpace_false in Hpost.
  set (L := leftDelimiter pasteDelimiters).
  set (R := rightDelimiter pasteDelimiters).
  destruct (stepsForText_has_Tokens pre tgt None None pasteDelimiters)
    as (r1 & H1 & E1).
  rewrite E1 in Ebefore. apply assignStart_Returned in Ebefore.
  destruct Ebefore as (s1 & -> & ->).
  destruct (stepsForText_has_Tokens (pre ++ repeat SPACE (S n) ++ post) tgt
              startLine startColumn pasteDelimiters) as (r & Hr & E').
  rewrite E' in E. apply assignStart_Returned in E.
  destruct E as (raw & -> & ->).
  destruct (Tokens_app_inv tgt L R pre (repeat SPACE (S n) ++ post) s1 raw H1
              (or_introl Hpre) Hr) as (s2 & H2 & ->).
  destruct (TokenizerFacts.Tokens_total tgt L R post) as (r3 & H3).
  pose proof (Tokens_spaces tgt L R n post r3 Hpost H3) as H2'.
  pose proof (Tokens_fun tgt L R _ _ _ H2 H2') as E2.
  symmetry in E2. apply cons_step_Returned in E2.
  destruct E2 as (s3 & -> & ->).
  exists s3. split.
  - apply (stepsForText_raw post tgt pasteDelimiters s3 H3).
  - pose proof (stepsForText_raw pre tgt pasteDelimiters s1 H1) as Eraw.
    rewrite E1 in Eraw. injection Eraw as ->. reflexivity.
Qed.

Lemma stepsForText_space_run_witness :
  stepsForText (js "if" ++ repeat SPACE 3 ++ js "x") EDITOR (Some 2%Z) None None
  = Returned [mkDeltaStep INSERT_TEXT EDITOR (Some 2%Z) None (js "i");
              mkDeltaStep INSERT_TEXT EDITOR None None (js "f");
              mkDeltaStep INSERT_TEXT EDITOR None None (repeat SPACE 3);
              mkDeltaStep INSERT_TEXT EDITOR None None (js "x")] /\
  exists behind,
    stepsForText (js "x") EDITOR None None None = Returned behind /\
    [mkDeltaStep INSERT_TEXT EDITOR (Some 2%Z) None (js "i");
     mkDeltaStep INSERT_TEXT EDITOR None None (js "f");
     mkDeltaStep INSERT_TEXT EDITOR None None (repeat SPACE 3);
     mkDeltaStep INSERT_TEXT EDITOR None None (js "x")]
    = Tokenizer.setStart (Some 2%Z) None
        ([mkDeltaStep INSERT_TEXT EDITOR None None (js "i");
          mkDeltaStep INSERT_TEXT EDITOR None None (js "f")]
           ++ [mkDeltaStep INSERT_TEXT EDITOR None None (repeat SPACE 3)]
           ++ behind).
Proof.
  split; [reflexivity |].
  apply (stepsForText_space_run (js "if") (js "x") 2 EDITOR (Some 2%Z) None
           None); reflexivity.
Defined.

(** C2 as stated fails for spaces in a paste region: they are part of the
    value of the INSERT_PASTED_TEXT step and give no INSERT_TEXT step. *)
Lemma space_run_in_paste_region :
  stepsForText ([LAQUO] ++ js "a" ++ repeat SPACE 2 ++ js "b" ++ [RAQUO])
               EDITOR None None None
  = Returned [mkDeltaStep INSERT_PASTED_TEXT EDITOR None None
                          (js "a" ++ repeat SPACE 2 ++ js "b")] /\
  endsWithSpace ([LAQUO] ++ js "a") = false /\
  startsWithSpace (js "b" ++ [RAQUO]) = false /\
  forall produced,
    stepsForText ([LAQUO] ++ js "a" ++ repeat SPACE 2 ++ js "b" ++ [RAQUO])
                 EDITOR None None None
    = Returned produced ->
    ~ exists s, In s produced /\ kind s = INSERT_TEXT.
Proof.
  repeat split.
  intros produced E. vm_compute in E. injection E as <-.
  intros (s & [<- | []] & Hk). discriminate Hk.
Qed.

(** * Properties of the delay policy *)

Lemma getProperty_single (c : codeUnit) :
  getProperty DELAY_CHARACTERS [c]
  = if N.eqb c SPACE then Some (mkDelays None (Some 110%Z))
    else if N.eqb c LF then Some (mkDelays None (Some 60%Z))
    else if N.eqb c LPAREN then Some (mkDelays (Some 80%Z) (Some 60%Z))
    else if N.eqb c RPAREN then Some (mkDelays (Some 80%Z) (Some 60%Z))
    else None.
Proof.
  unfold DELAY_CHARACTERS. cbn [getProperty].
  rewrite !str_eqb_single. reflexivity.
Qed.

(** C6. [lookupDelays] gives: for INSERT_NEWLINE an end delay of 60 and no
    start delay; for INSERT_PASTED_TEXT a start delay of 300 and an end
    delay of 100 whatever the value; for INSERT_TEXT with a value of one
    character, an end delay of 110 for a space, a start delay of 80 and an
    end delay of 60 for '(' and ')', an end delay of 60 for any other
    character; for INSERT_TEXT with a value of any other length, the empty
    record. *)
Theorem lookupDelays_policy (step : DeltaStep) :
  (kind step = INSERT_NEWLINE ->
   lookupDelays step = mkDelays None (Some 60%Z)) /\
  (kind step = INSERT_PASTED_TEXT ->
   lookupDelays step = mkDelays (Some 300%Z) (Some 100%Z)) /\
  (kind step = INSERT_TEXT ->
   forall c, value step = [c] ->
     lookupDelays step
     = if N.eqb c SPACE then mkDelays None (Some 110%Z)
       else if N.eqb c LPAREN || N.eqb c RPAREN
            then mkDelays (Some 80%Z) (Some 60%Z)
            else mkDelays None (Some 60%Z)) /\
  (kind step = INSERT_TEXT ->
   length (value step) <> 1 ->
   lookupDelays step = mkDelays None None).
Proof.
  unfold lookupDelays. repeat split.
  - intros ->. reflexivity.
  - intros ->. reflexivity.
  - intros -> c ->. cbn [length Nat.eqb].
    unfold hasProperty, readDelays. rewrite getProperty_single.
    destruct (N.eqb c SPACE); [reflexivity |].
    destruct (N.eqb c LF) eqn:Elf.
    + apply N.eqb_eq in Elf. subst c. reflexivity.
    + destruct (N.eqb c LPAREN); [reflexivity |].
      destruct (N.eqb c RPAREN); reflexivity.
  - intros -> Hlen. apply Nat.eqb_neq in Hlen. rewrite Hlen. reflexivity.
Qed.

Lemma lookupDelays_policy_witness :
  lookupDelays (mkDeltaStep INSERT_NEWLINE EDITOR None None [LF])
  = mkDelays None (Some 60%Z) /\
  lookupDelays (mkDeltaStep INSERT_PASTED_TEXT REPL None None (js "npm install"))
  = mkDelays (Some 300%Z) (Some 100%Z) /\
  lookupDelays (mkDeltaStep INSERT_TEXT EDITOR None None [LPAREN])
  = mkDelays (Some 80%Z) (Some 60%Z) /\
  lookupDelays (mkDeltaStep INSERT_TEXT EDITOR None None (repeat SPACE 4))
  = mkDelays None None.
Proof.
  split; [| split; [| split]].
  - apply (proj1 (lookupDelays_policy
                    (mkDeltaStep INSERT_NEWLINE EDITOR None None [LF]))).
    reflexivity.
  - apply (proj1 (proj2 (lookupDelays_policy
                    (mkDeltaStep INSERT_PASTED_TEXT REPL None None
                                 (js "npm install"))))).
    reflexivity.
  - apply (proj1 (proj2 (proj2 (lookupDelays_policy
                    (mkDeltaStep INSERT_TEXT EDITOR None None [LPAREN]))))
             eq_refl LPAREN eq_refl).
  - apply (proj2 (proj2 (proj2 (lookupDelays_policy
                    (mkDeltaStep INSERT_TEXT EDITOR None None
                                 (repeat SPACE 4)))))).
    + reflexivity.
    + discriminate.
Defined.

(** * Properties of the playback loop *)

Lemma runSteps_snoc (done : list DemoScriptStep) (step : DemoScriptStep)
      (st : Player.Playback) :
  stateOf (Player.runSteps (done ++ [step])) st
  = stateOf (Player.runStep step) (stateOf (Player.runSteps done) st).
Proof.
  revert st. induction done as [|x done IH]; intros st.
  - unfold stateOf. simpl. unfold Player.bind.
    destruct (Player.runStep step st) as [[[] st1] ev1]. reflexivity.
  - unfold stateOf in *. simpl. unfold Player.bind.
    destruct (Player.runStep x st) as [[[] st1] ev1].
    specialize (IH st1).
    destruct (Player.runSteps (done ++ [step]) st1) as [[[] st2] ev2].
    destruct (Player.runSteps done st1) as [[[] st3] ev3].
    simpl in *. exact IH.
Qed.

Lemma playbackAfter_snoc script done step :
  playbackAfter script (done ++ [step])
  = stateOf (Player.runStep step) (playbackAfter script done).
Proof. apply runSteps_snoc. Qed.

Lemma jsAdd_safe (a b : Z) :
  isSafeInteger (a + b) = true -> jsAdd a b = (a + b)%Z.
Proof.
  unfold isSafeInteger, jsAdd, roundDouble. intros H.
  cbv zeta. rewrite H. reflexivity.
Qed.

Lemma isSafeInteger_true (z : Z) :
  isSafeInteger z = true <-> (- 2 ^ 53 < z < 2 ^ 53)%Z.
Proof. unfold isSafeInteger. rewrite Z.ltb_lt. lia. Qed.

(** Rounding keeps a number that is 1 or more at 1 or more. *)
Lemma roundDouble_from1 (z : Z) : (1 <= z)%Z -> (1 <= roundDouble z)%Z.
Proof.
  intros Hz. unfold roundDouble. cbv zeta.
  destruct (Z.abs z <? 2 ^ 53)%Z eqn:Hsmall; [exact Hz |].
  apply Z.ltb_ge in Hsmall.
  rewrite (Z.abs_eq z) in * by lia. rewrite (Z.sgn_pos z) by lia.
  assert (H53 : (2 ^ 53 <= z)%Z) by exact Hsmall.
  assert (Hlog : (53 <= Z.log2 z)%Z).
  { apply Z.log2_le_pow2; lia. }
  destruct (Z.log2_spec z) as (Hlow & _); [lia |].
  set (e := (Z.log2 z - 52)%Z) in *.
  assert (He : (0 < 2 ^ e)%Z) by (apply Z.pow_pos_nonneg; lia).
  assert (Hle : (2 ^ e <= z)%Z).
  { apply Z.le_trans with (2 ^ Z.log2 z)%Z; [| exact Hlow].
    apply Z.pow_le_mono_r; lia. }
  assert (Hq : (1 <= z / 2 ^ e)%Z).
  { apply Z.div_le_lower_bound; lia. }
  destruct (z mod 2 ^ e <? 2 ^ (e - 1))%Z;
    [| destruct (2 ^ (e - 1) <? z mod 2 ^ e)%Z;
       [| destruct (Z.even (z / 2 ^ e))]]; nia.
Qed.

(** The cursor an EDITOR insertion leaves, from the cursor it finds. *)
Lemma editor_step_cursor (step : DeltaStep) (st : Player.Playback) :
  target step = EDITOR ->
  kind step <> SET_BROWSER_CONTENT ->
  let line := Player.nullish (startLineNumber step) (Player.lineNumber st) in
  let column := Player.nullish (startColumnIndex step) (Player.columnIndex st) in
  let st' := stateOf (Player.runStep (Delta step)) st in
  edits (eventsOf (Player.runStep (Delta step)) st)
  = [Monaco.mkEdit 1 1 (Monaco.mkRange line column line column)
                   (value step) true] /\
  Player.lineNumber st'
  = (if kind_eqb (kind step) INSERT_NEWLINE then jsAdd line 1 else line) /\
  Player.columnIndex st'
  = (if kind_eqb (kind step) INSERT_NEWLINE then 1%Z
     else jsAdd column (Z.of_nat (length (value step)))).
Proof.
  intros Ht Hk. destruct step as [k t sl sc v]. simpl in Ht, Hk. subst t.
  destruct st as [l c repl cur decos].
  unfold stateOf, eventsOf, Player.runStep, Player.editorInsert.
  cbn [kind target startLineNumber startColumnIndex value].
  destruct k; try (now elim Hk);
    destruct (lookupDelays _) as [[sd|] [ed|]];
    destruct (negb _);
    destruct cur as [[]|];
    repeat split; reflexivity.
Qed.

Lemma runScript_playbackAfter script :
  fst (runScript script) = playbackAfter script (steps script).
Proof.
  unfold runScript, playbackAfter, stateOf, Player.bind, Player.sleep,
    Player.emit.
  destruct (Player.runSteps (steps script) (Player.initialPlayback script))
    as [[[] st] ev].
  reflexivity.
Qed.

Lemma isValidStep_editor (step : DeltaStep) :
  target step = EDITOR -> isValidStep step = true ->
  kind step <> SET_BROWSER_CONTENT.
Proof.
  unfold isValidStep. intros -> H Hk. rewrite Hk in H. discriminate H.
Qed.

(** C7, as the code has it.  In a run the cursor starts at line 1, column
    1.  Playing an EDITOR-targeted delta step without coordinates, of a
    kind that goes with the target EDITOR, after whatever steps were played
    before it, moves the cursor so: for INSERT_NEWLINE the column is 1
    again, and the line grows by exactly one when the line plus one is a
    safe integer; for the other kinds the line stays, and the column grows
    by exactly the length of the value when the column plus the length is
    a safe integer. *)
Theorem playback_cursor_advance
        (script : DemoScript) (done : list DemoScriptStep) (step : DeltaStep) :
  target step = EDITOR ->
  startLineNumber step = None ->
  startColumnIndex step = None ->
  isValidStep step = true ->
  let before := playbackAfter script done in
  let after := playbackAfter script (done ++ [Delta step]) in
  (Player.lineNumber (playbackAfter script []) = 1 /\
   Player.columnIndex (playbackAfter script []) = 1)%Z /\
  (kind step = INSERT_NEWLINE ->
   Player.columnIndex after = 1%Z /\
   (isSafeInteger (Player.lineNumber before + 1) = true ->
    Player.lineNumber after = Player.lineNumber before + 1)%Z) /\
  (kind step <> INSERT_NEWLINE ->
   Player.lineNumber after = Player.lineNumber before /\
   (isSafeInteger (Player.columnIndex before
                   + Z.of_nat (length (value step))) = true ->
    Player.columnIndex after
    = Player.columnIndex before + Z.of_nat (length (value step)))%Z).
Proof.
  intros Ht Hl Hc Hvalid before after. split; [split; reflexivity |].
  subst after. rewrite playbackAfter_snoc. fold before.
  destruct (editor_step_cursor step before Ht
              (isValidStep_editor step Ht Hvalid)) as (_ & Hline & Hcol).
  rewrite Hl in Hline. rewrite Hc in Hcol.
  cbn [Player.nullish] in Hline, Hcol.
  split.
  - intros Hk. rewrite Hline, Hcol, Hk. cbn [kind_eqb].
    split; [reflexivity | apply jsAdd_safe].
  - intros Hk. rewrite Hline, Hcol.
    destruct (kind step); try (now elim Hk); cbn [kind_eqb];
      (split; [reflexivity | apply jsAdd_safe]).
Qed.

Lemma playback_cursor_advance_witness :
  let script :=
    mkDemoScript
      [Delta (mkDeltaStep INSERT_TEXT EDITOR None None (js "ab"));
       Delta (mkDeltaStep INSERT_NEWLINE EDITOR None None [LF]);
       Delta (mkDeltaStep INSERT_PASTED_TEXT EDITOR None None (js "hello"))]
      [] [] [] (js "python") in
  Player.lineNumber (fst (runScript script)) = 2%Z /\
  Player.columnIndex (fst (runScript script)) = 6%Z /\
  (Player.columnIndex
     (playbackAfter script
        ([Delta (mkDeltaStep INSERT_TEXT EDITOR None None (js "ab"));
          Delta (mkDeltaStep INSERT_NEWLINE EDITOR None None [LF])]
         ++ [Delta (mkDeltaStep INSERT_PASTED_TEXT EDITOR None None (js "hello"))]))
   = Player.columnIndex
       (playbackAfter script
          [Delta (mkDeltaStep INSERT_TEXT EDITOR None None (js "ab"));
           Delta (mkDeltaStep INSERT_NEWLINE EDITOR None None [LF])])
     + Z.of_nat (length (js "hello")))%Z.
Proof.
  intros script. split; [reflexivity | split; [reflexivity |]].
  apply (proj2 (proj2 (playback_cursor_advance script
           [Delta (mkDeltaStep INSERT_TEXT EDITOR None None (js "ab"));
            Delta (mkDeltaStep INSERT_NEWLINE EDITOR None None [LF])]
           (mkDeltaStep INSERT_PASTED_TEXT EDITOR None None (js "hello"))
           eq_refl eq_refl eq_refl eq_refl))).
  - discriminate.
  - reflexivity.
Defined.

(** C7 as stated fails where the cursor leaves the safe integers: from
    column 2^53 on one more character does not move the column, and from
    line 2^53 on a newline does not move the line, since 2^53 + 1 is not a
    double and the sum is rounded back to 2^53. *)
Lemma cursor_stalls_at_2_to_53 :
  let jump := mkDeltaStep INSERT_TEXT EDITOR (Some (2 ^ 53)%Z)
                          (Some (2 ^ 53 - 1)%Z) (js "a") in
  let typed := mkDeltaStep INSERT_TEXT EDITOR None None (js "b") in
  let newline := mkDeltaStep INSERT_NEWLINE EDITOR None None [LF] in
  let script := mkDemoScript [Delta jump; Delta typed; Delta newline]
                             [] [] [] (js "python") in
  (target typed = EDITOR /\
   startLineNumber typed = None /\ startColumnIndex typed = None /\
   isValidStep typed = true /\ kind typed <> INSERT_NEWLINE /\
   Player.columnIndex (playbackAfter script [Delta jump]) = (2 ^ 53)%Z /\
   Player.columnIndex (playbackAfter script ([Delta jump] ++ [Delta typed]))
   = (2 ^ 53)%Z /\
   Player.columnIndex (playbackAfter script ([Delta jump] ++ [Delta typed]))
   <> (Player.columnIndex (playbackAfter script [Delta jump])
       + Z.of_nat (length (value typed)))%Z) /\
  (target newline = EDITOR /\
   startLineNumber newline = None /\ startColumnIndex newline = None /\
   isValidStep newline = true /\ kind newline = INSERT_NEWLINE /\
   Player.lineNumber (playbackAfter script [Delta jump; Delta typed])
   = (2 ^ 53)%Z /\
   Player.lineNumber
     (playbackAfter script ([Delta jump; Delta typed] ++ [Delta newline]))
   = (2 ^ 53)%Z /\
   Player.lineNumber
     (playbackAfter script ([Delta jump; Delta typed] ++ [Delta newline]))
   <> (Player.lineNumber (playbackAfter script [Delta jump; Delta typed])
       + 1)%Z).
Proof.
  repeat split; try reflexivity; vm_compute; discriminate.
Qed.



Lemma lookupDelays_startDelay (step : DeltaStep) :
  startDelay (lookupDelays step) = None \/
  startDelay (lookupDelays step) = Some 300%Z \/
  startDelay (lookupDelays step) = Some 80%Z.
Proof.
  assert (Htext :
    forall v : jsstring,
      let d := if length v =? 1
               then if hasProperty DELAY_CHARACTERS v
                    then readDelays DELAY_CHARACTERS v
                    else mkDelays None (Some 60%Z)
               else noDelays in
      startDelay d = None \/ startDelay d = Some 300%Z \/
      startDelay d = Some 80%Z).
  { intros [|c [|c' v]]; cbn [length Nat.eqb]; auto.
    unfold hasProperty, readDelays. rewrite getProperty_single.
    destruct (N.eqb c SPACE); [simpl; auto |].
    destruct (N.eqb c LF); [simpl; auto |].
    destruct (N.eqb c LPAREN); [simpl; auto |].
    destruct (N.eqb c RPAREN); simpl; auto. }
  unfold lookupDelays. destruct (kind step); simpl; auto; apply Htext.
Qed.

(** C8.  A delta step whose target is not the current target (none at the
    start) first sets the current target, signals the active pane once and
    pauses 100 ms; what follows is what the step does when its target is
    already current.  A delta step whose target is current signals nothing,
    and before its first pane mutation there is no 100 ms pause and no
    signal (only the start delay of the step, 300 or 80 ms, if it has one).
    After a delta step its target is current.  A SLEEP step pauses and
    changes nothing: no signal, the same current target. *)
Theorem playback_target_switch (step : DeltaStep) (st : Player.Playback) :
  (Player.currentTarget st <> Some (target step) ->
   eventsOf (Player.runStep (Delta step)) st
   = EvSetTarget (target step) :: EvSleep 100
       :: eventsOf (Player.runStep (Delta step)) (switchedTo step st) /\
   stateOf (Player.runStep (Delta step)) st
   = stateOf (Player.runStep (Delta step)) (switchedTo step st) /\
   length (filter isTargetSignal (eventsOf (Player.runStep (Delta step)) st))
   = 1)
  /\
  (Player.currentTarget st = Some (target step) ->
   filter isTargetSignal (eventsOf (Player.runStep (Delta step)) st) = [] /\
   exists pre mutation rest,
     eventsOf (Player.runStep (Delta step)) st = pre ++ mutation :: rest /\
     isPaneMutation mutation = true /\
     existsb isPaneMutation pre = false /\
     existsb isSwitchPause pre = false)
  /\
  Player.currentTarget (stateOf (Player.runStep (Delta step)) st)
  = Some (target step)
  /\
  (forall duration,
     stateOf (Player.runStep (Sleep duration)) st = st /\
     eventsOf (Player.runStep (Sleep duration)) st = [EvSleep duration]).
Proof.
  pose proof (lookupDelays_startDelay step) as Hsd.
  destruct step as [k t sl sc v]. destruct st as [l c repl cur decos].
  unfold switchedTo, stateOf, eventsOf, Player.runStep, Player.editorInsert in *.
  cbn [kind target startLineNumber startColumnIndex value
       Player.lineNumber Player.columnIndex Player.newRepl
       Player.currentTarget Player.decorations] in *.
  split; [| split; [| split]].
  - intros Hcur.
    destruct k;
      destruct (lookupDelays _) as [sd [ed|]];
      cbn [startDelay] in Hsd; destruct Hsd as [-> | [-> | ->]];
      try destruct (negb _);
      destruct t; destruct cur as [[]|];
      try (now elim Hcur); repeat split; reflexivity.
  - intros Hcur. cbn [Player.currentTarget] in Hcur. subst cur.
    destruct k;
      destruct (lookupDelays _) as [sd [ed|]];
      cbn [startDelay] in Hsd; destruct Hsd as [-> | [-> | ->]];
      try destruct (negb _);
      destruct t;
      (split; [reflexivity |]);
      first [ exists []; eexists; eexists; repeat split; reflexivity
            | exists [EvSleep 300]; eexists; eexists; repeat split; reflexivity
            | exists [EvSleep 80]; eexists; eexists; repeat split; reflexivity ].
  - destruct k;
      destruct (lookupDelays _) as [[sd|] [ed|]];
      try destruct (negb _);
      destruct t; destruct cur as [[]|]; reflexivity.
  - intros duration. split; reflexivity.
Qed.

Lemma playback_target_switch_witness :
  let a := mkDeltaStep INSERT_TEXT EDITOR None None (js "a") in
  let b := mkDeltaStep INSERT_TEXT REPL None None (js "b") in
  let script := mkDemoScript [Delta a; Delta b] [] [] [] (js "python") in
  Player.currentTarget (playbackAfter script []) <> Some (target a) /\
  eventsOf (Player.runStep (Delta a)) (playbackAfter script [])
  = EvSetTarget EDITOR :: EvSleep 100
      :: eventsOf (Player.runStep (Delta a))
           (switchedTo a (playbackAfter script [])) /\
  Player.currentTarget (playbackAfter script [Delta a]) <> Some (target b) /\
  eventsOf (Player.runStep (Delta b)) (playbackAfter script [Delta a])
  = EvSetTarget REPL :: EvSleep 100
      :: eventsOf (Player.runStep (Delta b))
           (switchedTo b (playbackAfter script [Delta a])).
Proof.
  intros a b script.
  split; [discriminate | split; [| split; [discriminate |]]].
  - apply (proj1 (playback_target_switch a (playbackAfter script []))).
    discriminate.
  - apply (proj1 (playback_target_switch b (playbackAfter script [Delta a]))).
    discriminate.
Defined.

(** The run of the two-step script of the specification, event by event. *)
Example two_pane_script_events :
  snd (runScript
         (mkDemoScript
            [Delta (mkDeltaStep INSERT_TEXT EDITOR None None (js "a"));
             Delta (mkDeltaStep INSERT_TEXT REPL None None (js "b"))]
            [] [] [] (js "python")))
  = [EvSleep 300;
     EvSetTarget EDITOR; EvSleep 100;
     EvExecuteEdits "animated-code-example"
       [Monaco.mkEdit 1 1 (Monaco.mkRange 1 1 1 1) (js "a") true];
     EvDeltaDecorations Monaco.NoIds
       [Monaco.mkDecoration (Monaco.mkRange 1 1 1 2) "addition" None];
     EvDeltaDecorations Monaco.NoIds
       [Monaco.mkDecoration (Monaco.mkRange 1 1 1 2) "fake-cursor"
          (Some Monaco.NeverGrowsWhenTypingAtEdges)];
     EvSleep 60;
     EvSetTarget REPL; EvSleep 100;
     EvSetReplContent (js "b");
     EvSleep 60].
Proof. reflexivity. Qed.

(** * Further properties of the tokenizer *)

Lemma stepsForText_outcome text tgt pasteDelimiters r :
  Tokens tgt (leftDelimiter pasteDelimiters) (rightDelimiter pasteDelimiters)
         text r ->
  stepsForText text tgt None None pasteDelimiters = r.
Proof.
  intros H. destruct r as [s | e |].
  - now apply stepsForText_raw.
  - now rewrite (stepsForText_Tokens text tgt None None pasteDelimiters
                   (Thrown e) H).
  - now elim (TokenizerFacts.Tokens_not_exhausted _ _ _ _ _ H).
Qed.

Lemma stepsForText_Returned_Tokens text tgt startLine startColumn
      pasteDelimiters produced :
  stepsForText text tgt startLine startColumn pasteDelimiters
  = Returned produced ->
  exists raw,
    Tokens tgt (leftDelimiter pasteDelimiters)
           (rightDelimiter pasteDelimiters) text (Returned raw) /\
    produced = Tokenizer.setStart startLine startColumn raw.
Proof.
  intros E.
  destruct (stepsForText_has_Tokens text tgt startLine startColumn
              pasteDelimiters) as (r & Hr & E').
  rewrite E' in E. apply assignStart_Returned in E.
  destruct E as (raw & -> & ->). eauto.
Qed.

Lemma setStart_Forall (P : DeltaStep -> Prop) startLine startColumn l :
  (forall s, P s ->
     P (mkDeltaStep (kind s) (target s) startLine startColumn (value s))) ->
  Forall P l -> Forall P (Tokenizer.setStart startLine startColumn l).
Proof.
  intros HP Hl. destruct l as [|first rest]; [constructor |].
  inversion Hl; subst. constructor; auto.
Qed.

Lemma setStart_sources L R startLine startColumn l :
  map (sourceOf L R) (Tokenizer.setStart startLine startColumn l)
  = map (sourceOf L R) l.
Proof. destruct l; reflexivity. Qed.

Lemma setStart_length startLine startColumn l :
  length (Tokenizer.setStart startLine startColumn l) = length l.
Proof. destruct l; reflexivity. Qed.

Lemma setStart_adjacentSpaceRuns startLine startColumn l :
  adjacentSpaceRuns (Tokenizer.setStart startLine startColumn l)
  = adjacentSpaceRuns l.
Proof. destruct l as [|x [|y t]]; reflexivity. Qed.

Section TokenShapes.
Variable tgt : StepTarget.
Variables L R : option jsstring.

Local Abbreviation Tokens := (Tokens tgt L R).

Lemma Tokens_sources l r :
  Tokens l r ->
  forall s, r = Returned s -> concat (map (sourceOf L R) s) = l.
Proof.
  induction 1 as [ | rest0 r0 H0 IH | n rest0 r0 Hrest0 H0 IH
                 | c body d rest0 r0 Hc Hb Hlf Hd H0 IH
                 | c body Hc Hb | c body rest0 Hc Hb
                 | c rest0 r0 Hlf Hsp Hl H0 IH ];
    intros s E; try discriminate.
  - injection E as <-. reflexivity.
  - apply cons_step_Returned in E. destruct E as (s0 & -> & ->).
    cbn [map concat]. rewrite (IH s0 eq_refl). reflexivity.
  - apply cons_step_Returned in E. destruct E as (s0 & -> & ->).
    cbn [map concat]. rewrite (IH s0 eq_refl). reflexivity.
  - apply cons_step_Returned in E. destruct E as (s0 & -> & ->).
    destruct Hc as (_ & _ & Hc).
    apply isDelimiter_true in Hc. apply isDelimiter_true in Hd.
    cbn [map concat]. rewrite (IH s0 eq_refl).
    unfold sourceOf, pushed. cbn [kind value]. rewrite Hc, Hd.
    cbn [delimiterText]. simpl. rewrite <- !app_assoc. reflexivity.
  - apply cons_step_Returned in E. destruct E as (s0 & -> & ->).
    cbn [map concat]. rewrite (IH s0 eq_refl). reflexivity.
Qed.

Lemma Tokens_shape l r :
  Tokens l r ->
  forall s, r = Returned s -> Forall (tokenShape tgt L R) s.
Proof.
  induction 1 as [ | rest0 r0 H0 IH | n rest0 r0 Hrest0 H0 IH
                 | c body d rest0 r0 Hc Hb Hlf Hd H0 IH
                 | c body Hc Hb | c body rest0 Hc Hb
                 | c rest0 r0 Hlf Hsp Hl H0 IH ];
    intros s E; try discriminate.
  - injection E as <-. constructor.
  - apply cons_step_Returned in E. destruct E as (s0 & -> & ->).
    constructor; [| now apply IH]. split; reflexivity.
  - apply cons_step_Returned in E. destruct E as (s0 & -> & ->).
    constructor; [| now apply IH]. split; [reflexivity |].
    left. exists n. reflexivity.
  - apply cons_step_Returned in E. destruct E as (s0 & -> & ->).
    constructor; [| now apply IH]. split; [reflexivity |]. exact Hb.
  - apply cons_step_Returned in E. destruct E as (s0 & -> & ->).
    constructor; [| now apply IH]. split; [reflexivity |].
    right. exists c. auto.
Qed.

Lemma Tokens_length l r :
  Tokens l r ->
  forall s, r = Returned s ->
    length s <= length l /\ (s = [] <-> l = []).
Proof.
  induction 1 as [ | rest0 r0 H0 IH | n rest0 r0 Hrest0 H0 IH
                 | c body d rest0 r0 Hc Hb Hlf Hd H0 IH
                 | c body Hc Hb | c body rest0 Hc Hb
                 | c rest0 r0 Hlf Hsp Hl H0 IH ];
    intros s E; try discriminate.
  - injection E as <-. split; [apply Nat.le_refl | tauto].
  - apply cons_step_Returned in E. destruct E as (s0 & -> & ->).
    destruct (IH s0 eq_refl) as (Hlen & _).
    split; [simpl; lia | split; discriminate].
  - apply cons_step_Returned in E. destruct E as (s0 & -> & ->).
    destruct (IH s0 eq_refl) as (Hlen & _).
    split; [rewrite length_app; simpl; lia | split; discriminate].
  - apply cons_step_Returned in E. destruct E as (s0 & -> & ->).
    destruct (IH s0 eq_refl) as (Hlen & _).
    split; [simpl; rewrite length_app; simpl; lia | split; discriminate].
  - apply cons_step_Returned in E. destruct E as (s0 & -> & ->).
    destruct (IH s0 eq_refl) as (Hlen & _).
    split; [simpl; lia | split; discriminate].
Qed.

(** The values of the steps are no longer than the text. *)
Lemma Tokens_values_length l r :
  Tokens l r ->
  forall s, r = Returned s ->
    length (concat (map value s)) <= length l.
Proof.
  induction 1 as [ | rest0 r0 H0 IH | n rest0 r0 Hrest0 H0 IH
                 | c body d rest0 r0 Hc Hb Hlf Hd H0 IH
                 | c body Hc Hb | c body rest0 Hc Hb
                 | c rest0 r0 Hlf Hsp Hl H0 IH ];
    intros s E; try discriminate.
  - injection E as <-. apply Nat.le_refl.
  - apply cons_step_Returned in E. destruct E as (s0 & -> & ->).
    specialize (IH s0 eq_refl).
    cbn [map concat pushed value]. rewrite length_app. simpl. lia.
  - apply cons_step_Returned in E. destruct E as (s0 & -> & ->).
    specialize (IH s0 eq_refl).
    cbn [map concat pushed value]. rewrite !length_app. lia.
  - apply cons_step_Returned in E. destruct E as (s0 & -> & ->).
    specialize (IH s0 eq_refl).
    cbn [map concat pushed value length]. rewrite !length_app.
    cbn [length]. lia.
  - apply cons_step_Returned in E. destruct E as (s0 & -> & ->).
    specialize (IH s0 eq_refl).
    cbn [map concat pushed value]. rewrite length_app. simpl. lia.
Qed.

(** The first step, when it is a text step, starts as the text starts. *)
Lemma Tokens_head l r :
  Tokens l r ->
  forall s rest, r = Returned (s :: rest) ->
    isSpaceRun s = startsWithSpace l.
Proof.
  destruct 1 as [ | rest0 r0 H0 | n rest0 r0 Hrest0 H0
                | c body d rest0 r0 Hc Hb Hlf Hd H0
                | c body Hc Hb | c body rest0 Hc Hb
                | c rest0 r0 Hlf Hsp Hl H0 ];
    intros s rest E; try discriminate;
    apply cons_step_Returned in E; destruct E as (s0 & -> & E);
    injection E as -> ->.
  - reflexivity.
  - reflexivity.
  - destruct Hc as (_ & Hc & _). unfold isSpaceRun. simpl.
    symmetry. now apply N.eqb_neq.
  - unfold isSpaceRun. reflexivity.
Qed.

Lemma adjacentSpaceRuns_cons s1 s2 tl :
  adjacentSpaceRuns (s1 :: s2 :: tl)
  = (isSpaceRun s1 && isSpaceRun s2) || adjacentSpaceRuns (s2 :: tl).
Proof. reflexivity. Qed.

Lemma Tokens_no_adjacent_space_runs l r :
  Tokens l r ->
  forall s, r = Returned s -> adjacentSpaceRuns s = false.
Proof.
  induction 1 as [ | rest0 r0 H0 IH | n rest0 r0 Hrest0 H0 IH
                 | c body d rest0 r0 Hc Hb Hlf Hd H0 IH
                 | c body Hc Hb | c body rest0 Hc Hb
                 | c rest0 r0 Hlf Hsp Hl H0 IH ];
    intros s E; try discriminate.
  - injection E as <-. reflexivity.
  - apply cons_step_Returned in E. destruct E as (s0 & -> & ->).
    specialize (IH s0 eq_refl). destruct s0; [reflexivity |].
    rewrite adjacentSpaceRuns_cons, IH. reflexivity.
  - apply cons_step_Returned in E. destruct E as (s0 & -> & ->).
    specialize (IH s0 eq_refl). destruct s0 as [|s2 s0]; [reflexivity |].
    rewrite adjacentSpaceRuns_cons, IH.
    rewrite (Tokens_head rest0 _ H0 s2 s0 eq_refl).
    apply startsWithSpace_false in Hrest0. rewrite Hrest0.
    rewrite andb_false_r. reflexivity.
  - apply cons_step_Returned in E. destruct E as (s0 & -> & ->).
    specialize (IH s0 eq_refl). destruct s0; [reflexivity |].
    rewrite adjacentSpaceRuns_cons, IH. reflexivity.
  - apply cons_step_Returned in E. destruct E as (s0 & -> & ->).
    specialize (IH s0 eq_refl). destruct s0; [reflexivity |].
    rewrite adjacentSpaceRuns_cons, IH.
    assert (Hc : isSpaceRun (pushed tgt INSERT_TEXT [c]) = false).
    { unfold isSpaceRun. simpl. now apply N.eqb_neq. }
    rewrite Hc. reflexivity.
Qed.

End TokenShapes.

(** X1. Round trip.  When [stepsForText] returns, the text is got back
    from the steps: the values in order, each pasted value put back between
    the two delimiters. *)
Theorem stepsForText_round_trip
        (text : jsstring) (tgt : StepTarget) (startLine startColumn : option Z)
        (pasteDelimiters : option (list jsstring))
        (produced : list DeltaStep) :
  stepsForText text tgt startLine startColumn pasteDelimiters
  = Returned produced ->
  concat (map (sourceOf (leftDelimiter pasteDelimiters)
                        (rightDelimiter pasteDelimiters)) produced)
  = text.
Proof.
  intros E. apply stepsForText_Returned_Tokens in E.
  destruct E as (raw & Hraw & ->).
  rewrite setStart_sources.
  apply (Tokens_sources tgt _ _ text (Returned raw) Hraw raw eq_refl).
Qed.

Lemma stepsForText_round_trip_witness :
  concat (map (sourceOf (leftDelimiter None) (rightDelimiter None))
              [mkDeltaStep INSERT_TEXT REPL (Some 1%Z) None (js "$");
               mkDeltaStep INSERT_TEXT REPL None None [SPACE];
               mkDeltaStep INSERT_PASTED_TEXT REPL None None (js "npm i");
               mkDeltaStep INSERT_NEWLINE REPL None None [LF]])
  = js "$ " ++ [LAQUO] ++ js "npm i" ++ [RAQUO] ++ [LF].
Proof.
  apply (stepsForText_round_trip
           (js "$ " ++ [LAQUO] ++ js "npm i" ++ [RAQUO] ++ [LF]) REPL
           (Some 1%Z) None None).
  reflexivity.
Defined.

(** X2. Shape of the steps.  Every step [stepsForText] returns has the
    target given to the call and is one of: an INSERT_NEWLINE step with
    value "\n"; an INSERT_TEXT step whose value is a run of one or more
    spaces, or one character that is no newline, no space and not the left
    delimiter; an INSERT_PASTED_TEXT step whose value has no newline and no
    right delimiter.  No step has the kind SET_BROWSER_CONTENT, and no
    INSERT_TEXT value holds a newline, as the comment on INSERT_TEXT asks. *)
Theorem stepsForText_step_shapes
        (text : jsstring) (tgt : StepTarget) (startLine startColumn : option Z)
        (pasteDelimiters : option (list jsstring))
        (produced : list DeltaStep) :
  stepsForText text tgt startLine startColumn pasteDelimiters
  = Returned produced ->
  Forall (tokenShape tgt (leftDelimiter pasteDelimiters)
                     (rightDelimiter pasteDelimiters)) produced.
Proof.
  intros E. apply stepsForText_Returned_Tokens in E.
  destruct E as (raw & Hraw & ->).
  apply setStart_Forall.
  - intros s Hs. exact Hs.
  - apply (Tokens_shape tgt _ _ text (Returned raw) Hraw raw eq_refl).
Qed.

Lemma stepsForText_step_shapes_witness :
  Forall (tokenShape EDITOR (leftDelimiter None) (rightDelimiter None))
         [mkDeltaStep INSERT_TEXT EDITOR (Some 2%Z) (Some 1%Z) (repeat SPACE 2);
          mkDeltaStep INSERT_TEXT EDITOR None None (js "x");
          mkDeltaStep INSERT_NEWLINE EDITOR None None [LF];
          mkDeltaStep INSERT_PASTED_TEXT EDITOR None None (js "a b")].
Proof.
  apply (stepsForText_step_shapes
           (js "  x" ++ [LF] ++ [LAQUO] ++ js "a b" ++ [RAQUO]) EDITOR
           (Some 2%Z) (Some 1%Z) None).
  reflexivity.
Defined.

(** X3. Runs of spaces are never split: in what [stepsForText] returns no
    INSERT_TEXT step that starts with a space is directly followed by
    another one. *)
Theorem stepsForText_no_adjacent_space_runs
        (text : jsstring) (tgt : StepTarget) (startLine startColumn : option Z)
        (pasteDelimiters : option (list jsstring))
        (produced : list DeltaStep) :
  stepsForText text tgt startLine startColumn pasteDelimiters
  = Returned produced ->
  adjacentSpaceRuns produced = false.
Proof.
  intros E. apply stepsForText_Returned_Tokens in E.
  destruct E as (raw & Hraw & ->).
  rewrite setStart_adjacentSpaceRuns.
  apply (Tokens_no_adjacent_space_runs tgt _ _ text (Returned raw) Hraw raw
           eq_refl).
Qed.

Lemma stepsForText_no_adjacent_space_runs_witness :
  adjacentSpaceRuns
    [mkDeltaStep INSERT_TEXT EDITOR None None (js "a");
     mkDeltaStep INSERT_TEXT EDITOR None None (repeat SPACE 3);
     mkDeltaStep INSERT_NEWLINE EDITOR None None [LF];
     mkDeltaStep INSERT_TEXT EDITOR None None (repeat SPACE 2);
     mkDeltaStep INSERT_TEXT EDITOR None None (js "b")]
  = false.
Proof.
  apply (stepsForText_no_adjacent_space_runs
           (js "a   " ++ [LF] ++ js "  b") EDITOR None None None).
  reflexivity.
Defined.

(** X4. Tokenizing a concatenation.  When [stepsForText] returns on [a] and
    the junction of [a] and [b] is not inside a run of spaces, then on
    [a ++ b] it gives the steps of [a] followed by the steps of [b], with
    the start position on the first step; and it throws what it throws on
    [b]. *)
Theorem stepsForText_app
        (a b : jsstring) (tgt : StepTarget) (startLine startColumn : option Z)
        (pasteDelimiters : option (list jsstring))
        (stepsOfA : list DeltaStep) :
  stepsForText a tgt None None pasteDelimiters = Returned stepsOfA ->
  endsWithSpace a = false \/ startsWithSpace b = false ->
  stepsForText (a ++ b) tgt startLine startColumn pasteDelimiters
  = assignStart startLine startColumn
      (prepend stepsOfA (stepsForText b tgt None None pasteDelimiters)).
Proof.
  intros Ea Hsep.
  assert (Hsep' : noTrailingSpace a \/ noLeadingSpace b).
  { destruct Hsep as [H | H];
      [left; now apply endsWithSpace_false
      | right; now apply startsWithSpace_false]. }
  destruct (stepsForText_Returned_Tokens _ _ _ _ _ _ Ea) as (raw & Hraw & E).
  pose proof (stepsForText_raw a tgt pasteDelimiters raw Hraw) as Eraw.
  rewrite Ea in Eraw. injection Eraw as ->.
  destruct (TokenizerFacts.Tokens_total tgt (leftDelimiter pasteDelimiters)
              (rightDelimiter pasteDelimiters) b) as (rb & Hb).
  rewrite (stepsForText_outcome b tgt pasteDelimiters rb Hb).
  apply stepsForText_Tokens.
  apply (Tokens_app tgt _ _ a (Returned raw) Hraw raw b rb eq_refl Hsep' Hb).
Qed.

Lemma stepsForText_app_witness :
  stepsForText (js "ls " ++ ([LAQUO] ++ js "-la" ++ [RAQUO])) REPL (Some 1%Z)
               (Some 1%Z) None
  = assignStart (Some 1%Z) (Some 1%Z)
      (prepend [mkDeltaStep INSERT_TEXT REPL None None (js "l");
                mkDeltaStep INSERT_TEXT REPL None None (js "s");
                mkDeltaStep INSERT_TEXT REPL None None [SPACE]]
               (stepsForText ([LAQUO] ++ js "-la" ++ [RAQUO]) REPL None None
                             None)).
Proof.
  apply (stepsForText_app (js "ls ") ([LAQUO] ++ js "-la" ++ [RAQUO]) REPL
           (Some 1%Z) (Some 1%Z) None).
  - reflexivity.
  - right. reflexivity.
Defined.

(** X5. Size.  [stepsForText] never returns more steps than the text has
    characters, and it returns no step exactly for the empty text. *)
Theorem stepsForText_size
        (text : jsstring) (tgt : StepTarget) (startLine startColumn : option Z)
        (pasteDelimiters : option (list jsstring))
        (produced : list DeltaStep) :
  stepsForText text tgt startLine startColumn pasteDelimiters
  = Returned produced ->
  length produced <= length text /\ (produced = [] <-> text = []).
Proof.
  intros E. apply stepsForText_Returned_Tokens in E.
  destruct E as (raw & Hraw & ->).
  destruct (Tokens_length tgt _ _ text (Returned raw) Hraw raw eq_refl)
    as (Hlen & Hnil).
  rewrite setStart_length. split; [exact Hlen |].
  rewrite <- Hnil. destruct raw; simpl; split; (discriminate || auto).
Qed.

Lemma stepsForText_size_witness :
  length [mkDeltaStep INSERT_TEXT EDITOR None None (repeat SPACE 4);
          mkDeltaStep INSERT_PASTED_TEXT EDITOR None None (js "return")]
  <= length (repeat SPACE 4 ++ [LAQUO] ++ js "return" ++ [RAQUO]) /\
  ([mkDeltaStep INSERT_TEXT EDITOR None None (repeat SPACE 4);
    mkDeltaStep INSERT_PASTED_TEXT EDITOR None None (js "return")] = [] <->
   repeat SPACE 4 ++ [LAQUO] ++ js "return" ++ [RAQUO] = []).
Proof.
  apply (stepsForText_size
           (repeat SPACE 4 ++ [LAQUO] ++ js "return" ++ [RAQUO]) EDITOR None
           None None).
  reflexivity.
Defined.

(** X6. A newline in a paste cannot be repaired by more text: when
    [stepsForText] throws "Newline not allowed in paste" on a text, it
    throws it on every extension of the text. *)
Theorem stepsForText_newline_error_persists
        (a b : jsstring) (tgt : StepTarget)
        (startLine startColumn startLine' startColumn' : option Z)
        (pasteDelimiters : option (list jsstring)) :
  stepsForText a tgt startLine startColumn pasteDelimiters
  = Thrown NewlineInPaste ->
  stepsForText (a ++ b) tgt startLine' startColumn' pasteDelimiters
  = Thrown NewlineInPaste.
Proof.
  intros E. apply stepsForText_Thrown_iff in E.
  destruct E as (pre & c & tail & -> & Hpre & Hc & body & rest & -> & Hb).
  apply stepsForText_Thrown_iff.
  exists pre, c, (body ++ LF :: rest ++ b).
  refine (conj _ (conj Hpre (conj Hc _))).
  - rewrite <- !app_assoc. simpl. rewrite <- !app_assoc. reflexivity.
  - exists body, (rest ++ b). auto.
Qed.

Lemma stepsForText_newline_error_persists_witness :
  stepsForText (([LAQUO] ++ js "a" ++ [LF]) ++ (js "b" ++ [RAQUO])) EDITOR
               (Some 1%Z) None None
  = Thrown NewlineInPaste.
Proof.
  apply (stepsForText_newline_error_persists ([LAQUO] ++ js "a" ++ [LF])
           (js "b" ++ [RAQUO]) EDITOR None None (Some 1%Z) None None).
  reflexivity.
Defined.

(** X7. An unterminated paste is repaired by the right delimiter: when
    [stepsForText] throws "Unterminated paste" on a text and the right
    delimiter is one character that is not a newline, then on the text
    followed by that character it returns, and the last step is the
    INSERT_PASTED_TEXT step of the open region. *)
Theorem stepsForText_close_unterminated
        (a : jsstring) (r : codeUnit) (tgt : StepTarget)
        (startLine startColumn : option Z)
        (pasteDelimiters : option (list jsstring)) :
  stepsForText a tgt startLine startColumn pasteDelimiters
  = Thrown UnterminatedPaste ->
  rightDelimiter pasteDelimiters = Some [r] ->
  r <> LF ->
  exists pre c body before,
    a = pre ++ c :: body /\
    stepsForText pre tgt None None pasteDelimiters = Returned before /\
    stepsForText (a ++ [r]) tgt startLine startColumn pasteDelimiters
    = Returned (Tokenizer.setStart startLine startColumn
                  (before ++ [mkDeltaStep INSERT_PASTED_TEXT tgt None None
                                          body])).
Proof.
  intros E HR Hr. apply stepsForText_Thrown_iff in E.
  destruct E as (pre & c & body & -> & Hpre & Hc & Hb). simpl in Hb.
  apply returnsOn_Tokens in Hpre. destruct Hpre as (before & Hbefore).
  exists pre, c, body, before.
  split; [reflexivity | split].
  - now apply stepsForText_raw.
  - rewrite (stepsForText_Tokens ((pre ++ c :: body) ++ [r]) tgt startLine
               startColumn pasteDelimiters
               (prepend before
                  (cons_step (pushed tgt INSERT_PASTED_TEXT body)
                             (Returned []))));
      [reflexivity |].
    rewrite <- app_assoc.
    apply (Tokens_app tgt _ _ pre (Returned before) Hbefore before
             (c :: body ++ [r]) _ eq_refl).
    + right. simpl. apply Hc.
    + apply (Tokens_paste tgt _ _ c body r [] (Returned []) Hc Hb Hr).
      * apply isDelimiter_true. exact HR.
      * constructor.
Qed.

Lemma stepsForText_close_unterminated_witness :
  exists pre c body before,
    js "x" ++ [LAQUO] ++ js "ab" = pre ++ c :: body /\
    stepsForText pre EDITOR None None None = Returned before /\
    stepsForText ((js "x" ++ [LAQUO] ++ js "ab") ++ [RAQUO]) EDITOR None None
                 None
    = Returned (Tokenizer.setStart None None
                  (before ++ [mkDeltaStep INSERT_PASTED_TEXT EDITOR None None
                                          body])).
Proof.
  apply (stepsForText_close_unterminated (js "x" ++ [LAQUO] ++ js "ab") RAQUO
           EDITOR None None None).
  - reflexivity.
  - reflexivity.
  - discriminate.
Defined.

(** * Further properties of the delay policy *)

Lemma lookupDelays_cases (step : DeltaStep) :
  (lookupDelays step = mkDelays None None /\
   length (value step) <> 1 /\
   (kind step = INSERT_TEXT \/ kind step = SET_BROWSER_CONTENT)) \/
  lookupDelays step = mkDelays None (Some 110%Z) \/
  lookupDelays step = mkDelays None (Some 60%Z) \/
  lookupDelays step = mkDelays (Some 80%Z) (Some 60%Z) \/
  lookupDelays step = mkDelays (Some 300%Z) (Some 100%Z).
Proof.
  assert (Htext :
    forall v : jsstring,
      let d := if length v =? 1
               then if hasProperty DELAY_CHARACTERS v
                    then readDelays DELAY_CHARACTERS v
                    else mkDelays None (Some 60%Z)
               else noDelays in
      (d = mkDelays None None /\ length v <> 1) \/
      d = mkDelays None (Some 110%Z) \/
      d = mkDelays None (Some 60%Z) \/
      d = mkDelays (Some 80%Z) (Some 60%Z)).
  { intros [|c [|c' v]]; cbn [length Nat.eqb].
    - left. split; [reflexivity | discriminate].
    - unfold hasProperty, readDelays. rewrite getProperty_single.
      destruct (N.eqb c SPACE); [simpl; auto |].
      destruct (N.eqb c LF); [simpl; auto |].
      destruct (N.eqb c LPAREN); [simpl; auto |].
      destruct (N.eqb c RPAREN); simpl; auto.
    - left. split; [reflexivity | discriminate]. }
  unfold lookupDelays. destruct (kind step) eqn:Hk.
  - destruct (Htext (value step)) as [(E & Hlen) | [E | [E | E]]];
      cbv zeta in E; rewrite E; auto 10.
  - right; right; left. reflexivity.
  - right; right; right; right. reflexivity.
  - destruct (Htext (value step)) as [(E & Hlen) | [E | [E | E]]];
      cbv zeta in E; rewrite E; auto 10.
Qed.

(** X8. Bounds of the policy.  Whatever the step: a start delay is 80 or
    300 ms; an end delay is between 60 and 110 ms; a step with a start
    delay has an end delay; and a step has no end delay only when its kind
    is INSERT_TEXT or SET_BROWSER_CONTENT and its value is not one
    character long. *)
Theorem lookupDelays_bounds (step : DeltaStep) :
  (forall d, startDelay (lookupDelays step) = Some d ->
             d = 80%Z \/ d = 300%Z) /\
  (forall d, endDelay (lookupDelays step) = Some d -> (60 <= d <= 110)%Z) /\
  (startDelay (lookupDelays step) <> None ->
   endDelay (lookupDelays step) <> None) /\
  (endDelay (lookupDelays step) = None ->
   length (value step) <> 1 /\
   (kind step = INSERT_TEXT \/ kind step = SET_BROWSER_CONTENT)).
Proof.
  destruct (lookupDelays_cases step)
    as [(E & Hlen & Hk) | [E | [E | [E | E]]]]; rewrite E;
    cbn [startDelay endDelay]; (split; [| split; [| split]]).
  all: try (intros d Hd; inversion Hd; subst; clear Hd; auto; lia).
  all: try (intros _; discriminate).
  all: try discriminate.
  all: try (intros H; now elim H).
  all: try (intros _; split; assumption).
Qed.

Lemma lookupDelays_bounds_witness :
  (60 <= 60 <= 110)%Z /\
  length (value (mkDeltaStep SET_BROWSER_CONTENT BROWSER None None (js "Hi")))
  <> 1.
Proof.
  split.
  - apply (proj1 (proj2 (lookupDelays_bounds
                    (mkDeltaStep INSERT_TEXT EDITOR None None (js "x"))))
             60%Z).
    reflexivity.
  - apply (proj2 (proj2 (proj2 (lookupDelays_bounds
                    (mkDeltaStep SET_BROWSER_CONTENT BROWSER None None
                                 (js "Hi")))))).
    reflexivity.
Defined.

(** X9. Delays of tokenized text.  A step returned by [stepsForText] has
    no end delay exactly when it is a run of two or more spaces; every
    other returned step is followed by a pause. *)
Theorem stepsForText_end_delays
        (text : jsstring) (tgt : StepTarget) (startLine startColumn : option Z)
        (pasteDelimiters : option (list jsstring))
        (produced : list DeltaStep) :
  stepsForText text tgt startLine startColumn pasteDelimiters
  = Returned produced ->
  Forall (fun s =>
            endDelay (lookupDelays s) = None <->
            (exists n, kind s = INSERT_TEXT /\
                       value s = repeat SPACE (S (S n))))
         produced.
Proof.
  intros E. apply stepsForText_Returned_Tokens in E.
  destruct E as (raw & Hraw & ->).
  apply setStart_Forall; [intros s Hs; exact Hs |].
  pose proof (Tokens_shape tgt _ _ text (Returned raw) Hraw raw eq_refl) as Hsh.
  eapply Forall_impl; [| exact Hsh].
  intros s (_ & Hs). unfold lookupDelays.
  destruct (kind s) eqn:Hk.
  - destruct Hs as [(n & Hv) | (c & Hv & Hlf & Hsp & _)]; rewrite Hv.
    + destruct n as [|n].
      * split; [discriminate |]. intros (m & _ & Hm). discriminate Hm.
      * split; [intros _; exists n; auto | reflexivity].
    + cbn [length Nat.eqb]. unfold hasProperty, readDelays.
      rewrite getProperty_single.
      split.
      * destruct (N.eqb c SPACE); [discriminate |].
        destruct (N.eqb c LF); [discriminate |].
        destruct (N.eqb c LPAREN); [discriminate |].
        destruct (N.eqb c RPAREN); discriminate.
      * intros (m & _ & Hm). discriminate Hm.
  - split; [discriminate | intros (m & Hm & _); discriminate Hm].
  - split; [discriminate | intros (m & Hm & _); discriminate Hm].
  - now elim Hs.
Qed.

Lemma stepsForText_end_delays_witness :
  Forall (fun s =>
            endDelay (lookupDelays s) = None <->
            (exists n, kind s = INSERT_TEXT /\
                       value s = repeat SPACE (S (S n))))
         [mkDeltaStep INSERT_TEXT EDITOR None None (js "f");
          mkDeltaStep INSERT_TEXT EDITOR None None (js "(");
          mkDeltaStep INSERT_TEXT EDITOR None None (repeat SPACE 2);
          mkDeltaStep INSERT_TEXT EDITOR None None (js ")")].
Proof.
  apply (stepsForText_end_delays (js "f(  )") EDITOR None None None).
  reflexivity.
Defined.

(** * Further properties of the playback loop *)

Lemma eventsOf_runSteps_cons step l st :
  eventsOf (Player.runSteps (step :: l)) st
  = eventsOf (Player.runStep step) st
    ++ eventsOf (Player.runSteps l) (stateOf (Player.runStep step) st).
Proof.
  unfold eventsOf, stateOf. simpl. unfold Player.bind.
  destruct (Player.runStep step st) as [[[] st1] ev1]. simpl.
  destruct (Player.runSteps l st1) as [[[] st2] ev2]. reflexivity.
Qed.

Lemma stateOf_runSteps_cons step l st :
  stateOf (Player.runSteps (step :: l)) st
  = stateOf (Player.runSteps l) (stateOf (Player.runStep step) st).
Proof.
  unfold stateOf. simpl. unfold Player.bind.
  destruct (Player.runStep step st) as [[[] st1] ev1]. simpl.
  destruct (Player.runSteps l st1) as [[[] st2] ev2]. reflexivity.
Qed.

Lemma runScript_events script :
  snd (runScript script)
  = EvSleep 300
      :: eventsOf (Player.runSteps (steps script))
                  (Player.initialPlayback script).
Proof.
  unfold runScript, eventsOf, Player.bind, Player.sleep, Player.emit.
  destruct (Player.runSteps (steps script) (Player.initialPlayback script))
    as [[[] st] ev].
  reflexivity.
Qed.

Lemma targetSignals_app a b :
  targetSignals (a ++ b) = targetSignals a ++ targetSignals b.
Proof.
  induction a as [|[] a IH]; simpl; try rewrite IH; reflexivity.
Qed.

Lemma browserContents_app a b :
  browserContents (a ++ b) = browserContents a ++ browserContents b.
Proof.
  induction a as [|[] a IH]; simpl; try rewrite IH; reflexivity.
Qed.

Lemma replContents_app a b :
  replContents (a ++ b) = replContents a ++ replContents b.
Proof.
  induction a as [|[] a IH]; simpl; try rewrite IH; reflexivity.
Qed.

Lemma edits_app a b : edits (a ++ b) = edits a ++ edits b.
Proof.
  induction a as [|[] a IH]; simpl; try rewrite IH;
    try rewrite <- app_assoc; reflexivity.
Qed.

Lemma totalSleep_app a b :
  totalSleep (a ++ b) = (totalSleep a + totalSleep b)%Z.
Proof.
  induction a as [|[] a IH]; simpl; try rewrite IH; lia.
Qed.

(** What one delta step does to each pane and to the variables. *)
Lemma runStep_delta_effects (s : DeltaStep) (st : Player.Playback) :
  let events := eventsOf (Player.runStep (Delta s)) st in
  let st' := stateOf (Player.runStep (Delta s)) st in
  targetSignals events
  = (if Player.target_neq (Player.currentTarget st) (target s)
     then [target s] else []) /\
  Player.currentTarget st' = Some (target s) /\
  browserContents events
  = (if isBrowserStep s then [[]; value s] else []) /\
  replContents events
  = (if isReplStep s then [Player.newRepl st ++ value s] else []) /\
  Player.newRepl st'
  = (if isReplStep s then Player.newRepl st ++ value s
     else Player.newRepl st) /\
  (isEditorStep s = false -> edits events = [] /\ cursorOf st' = cursorOf st).
Proof.
  destruct s as [k t sl sc v]. destruct st as [l c repl cur decos].
  unfold stateOf, eventsOf, Player.runStep, Player.editorInsert, cursorOf,
    isEditorStep, isReplStep, isBrowserStep.
  cbn [kind target startLineNumber startColumnIndex value
       Player.lineNumber Player.columnIndex Player.newRepl
       Player.currentTarget Player.decorations].
  destruct k;
    try destruct (lookupDelays _) as [[sd|] [ed|]];
    try destruct (negb (_ =? _)%nat);
    destruct t; destruct cur as [[]|];
    (split; [| split; [| split; [| split; [| split]]]]);
    try reflexivity;
    intros Hed; try discriminate Hed; split; reflexivity.
Qed.

Lemma runStep_sleep_effects (d : Z) (st : Player.Playback) :
  eventsOf (Player.runStep (Sleep d)) st = [EvSleep d] /\
  stateOf (Player.runStep (Sleep d)) st = st.
Proof. split; reflexivity. Qed.

Lemma target_neq_same t : Player.target_neq (Some t) t = false.
Proof. destruct t; reflexivity. Qed.

Lemma target_neq_true cur t :
  Player.target_neq cur t = true <-> cur <> Some t.
Proof.
  destruct cur as [[]|]; destruct t; simpl; split;
    (congruence || discriminate || auto).
Qed.

(** What [collapse] leaves has no target twice in a row, and does not
    start with the target that stood before. *)
Lemma collapse_no_repeat ts :
  forall cur,
    adjacentEqual (collapse cur ts) = false /\
    match collapse cur ts with
    | t :: _ => Player.target_neq cur t = true
    | [] => True
    end.
Proof.
  induction ts as [|t ts IH]; intros cur; [split; [reflexivity | exact I] |].
  cbn [collapse]. destruct (IH (Some t)) as (Hadj & Hhead).
  destruct (Player.target_neq cur t) eqn:Hneq.
  - split; [| exact Hneq].
    destruct (collapse (Some t) ts) as [|u us] eqn:Ec; [reflexivity |].
    change (adjacentEqual (t :: u :: us))
      with (StepTarget_eqb t u || adjacentEqual (u :: us)).
    rewrite Hadj. simpl in Hhead.
    destruct (StepTarget_eqb t u); [discriminate Hhead | reflexivity].
  - split; [exact Hadj |].
    destruct (collapse (Some t) ts) as [|u us] eqn:Ec; [exact I |].
    simpl in Hhead. destruct cur as [c|]; [| discriminate Hneq].
    simpl in Hneq. apply negb_false_iff in Hneq.
    assert (c = t) by (destruct c, t; (reflexivity || discriminate Hneq)).
    subst c. simpl. exact Hhead.
Qed.

Lemma runSteps_signals l :
  forall st,
    targetSignals (eventsOf (Player.runSteps l) st)
    = collapse (Player.currentTarget st) (deltaTargets l).
Proof.
  induction l as [|[s | d] l IH]; intros st.
  - reflexivity.
  - rewrite eventsOf_runSteps_cons, targetSignals_app, IH.
    destruct (runStep_delta_effects s st) as (Hsig & Hcur & _).
    rewrite Hsig, Hcur. cbn [deltaTargets collapse].
    destruct (Player.target_neq (Player.currentTarget st) (target s));
      reflexivity.
  - rewrite eventsOf_runSteps_cons, targetSignals_app, IH.
    destruct (runStep_sleep_effects d st) as (-> & ->). reflexivity.
Qed.

(** X10. Active pane.  Over a whole run, [setTarget] is called with the
    targets of the delta steps in script order, leaving out each target
    that is the same as the one of the delta step before it (SLEEP steps
    in between do not count); so the pane signalled is never the pane that
    is already active. *)
Theorem runScript_target_signals (script : DemoScript) :
  targetSignals (snd (runScript script))
  = collapse None (deltaTargets (steps script)) /\
  adjacentEqual (targetSignals (snd (runScript script))) = false.
Proof.
  rewrite runScript_events. cbn [targetSignals].
  rewrite runSteps_signals. split; [reflexivity |].
  apply (collapse_no_repeat (deltaTargets (steps script)) None).
Qed.

Lemma runSteps_browser l :
  forall st,
    browserContents (eventsOf (Player.runSteps l) st) = browserSwaps l.
Proof.
  induction l as [|[s | d] l IH]; intros st.
  - reflexivity.
  - rewrite eventsOf_runSteps_cons, browserContents_app, IH.
    destruct (runStep_delta_effects s st) as (_ & _ & Hb & _).
    rewrite Hb. cbn [browserSwaps]. destruct (isBrowserStep s); reflexivity.
  - rewrite eventsOf_runSteps_cons, browserContents_app, IH.
    destruct (runStep_sleep_effects d st) as (-> & _). reflexivity.
Qed.

(** X11. Browser pane.  Over a whole run the browser pane is given, for
    each step of kind SET_BROWSER_CONTENT in script order and whatever its
    target, the empty content and then the value of the step; no other
    step gives it anything. *)
Theorem runScript_browser_contents (script : DemoScript) :
  browserContents (snd (runScript script)) = browserSwaps (steps script).
Proof.
  rewrite runScript_events. cbn [browserContents]. apply runSteps_browser.
Qed.

Lemma runSteps_repl l :
  forall st,
    replContents (eventsOf (Player.runSteps l) st)
    = buffers (Player.newRepl st) (valuesWhere isReplStep l) /\
    Player.newRepl (stateOf (Player.runSteps l) st)
    = Player.newRepl st ++ concat (valuesWhere isReplStep l).
Proof.
  induction l as [|[s | d] l IH]; intros st.
  - split; [reflexivity |]. simpl. now rewrite app_nil_r.
  - rewrite eventsOf_runSteps_cons, replContents_app, stateOf_runSteps_cons.
    destruct (IH (stateOf (Player.runStep (Delta s)) st)) as (-> & ->).
    destruct (runStep_delta_effects s st) as (_ & _ & _ & Hr & Hn & _).
    rewrite Hr, Hn. cbn [valuesWhere].
    destruct (isReplStep s); cbn [buffers concat app];
      [rewrite <- app_assoc |]; split; reflexivity.
  - rewrite eventsOf_runSteps_cons, replContents_app, stateOf_runSteps_cons.
    destruct (runStep_sleep_effects d st) as (-> & ->).
    destruct (IH st) as (-> & ->). split; reflexivity.
Qed.

(** X12. REPL pane.  The steps that reach the REPL branch are the delta
    steps whose kind is not SET_BROWSER_CONTENT and whose target is not
    EDITOR (REPL, and BROWSER too).  Over a whole run the REPL pane is
    given, for each of them in script order, the buffer so far with the
    value of the step appended, starting from [initialReplContent]; at the
    end the buffer is [initialReplContent] followed by all their values. *)
Theorem runScript_repl_contents (script : DemoScript) :
  replContents (snd (runScript script))
  = buffers (initialReplContent script)
            (valuesWhere isReplStep (steps script)) /\
  Player.newRepl (fst (runScript script))
  = initialReplContent script
    ++ concat (valuesWhere isReplStep (steps script)).
Proof.
  rewrite runScript_events, runScript_playbackAfter. cbn [replContents].
  apply (runSteps_repl (steps script) (Player.initialPlayback script)).
Qed.

Lemma isEditorStep_true (s : DeltaStep) :
  isEditorStep s = true <->
  target s = EDITOR /\ kind s <> SET_BROWSER_CONTENT.
Proof.
  unfold isEditorStep, isBrowserStep.
  destruct (kind s), (target s); simpl; split;
    (intros [H1 H2] || intros H); try discriminate; try congruence;
    try (split; congruence).
Qed.

Lemma runStep_editor_edit (s : DeltaStep) (st : Player.Playback) :
  isEditorStep s = true ->
  let line := Player.nullish (startLineNumber s) (Player.lineNumber st) in
  let column := Player.nullish (startColumnIndex s) (Player.columnIndex st) in
  edits (eventsOf (Player.runStep (Delta s)) st)
  = [Monaco.mkEdit 1 1 (Monaco.mkRange line column line column)
                   (value s) true] /\
  cursorOf (stateOf (Player.runStep (Delta s)) st)
  = (if kind_eqb (kind s) INSERT_NEWLINE
     then (jsAdd line 1, 1%Z)
     else (line, jsAdd column (Z.of_nat (length (value s))))).
Proof.
  intros He. apply isEditorStep_true in He. destruct He as (Ht & Hk).
  destruct (editor_step_cursor s st Ht Hk) as (He & Hl & Hc).
  split; [exact He |]. unfold cursorOf. rewrite Hl, Hc.
  destruct (kind_eqb (kind s) INSERT_NEWLINE); reflexivity.
Qed.

Lemma runSteps_edits l :
  forall st,
    map Monaco.editText (edits (eventsOf (Player.runSteps l) st))
    = valuesWhere isEditorStep l /\
    Forall insertsAt (edits (eventsOf (Player.runSteps l) st)).
Proof.
  induction l as [|[s | d] l IH]; intros st.
  - split; [reflexivity | constructor].
  - rewrite eventsOf_runSteps_cons, edits_app, map_app.
    destruct (IH (stateOf (Player.runStep (Delta s)) st)) as (-> & Hrest).
    cbn [valuesWhere]. destruct (isEditorStep s) eqn:He.
    + destruct (runStep_editor_edit s st He) as (-> & _).
      split; [reflexivity |].
      constructor; [repeat split | exact Hrest].
    + destruct (runStep_delta_effects s st) as (_ & _ & _ & _ & _ & Hn).
      destruct (Hn He) as (-> & _). split; [reflexivity | exact Hrest].
  - rewrite eventsOf_runSteps_cons, edits_app, map_app.
    destruct (runStep_sleep_effects d st) as (-> & ->).
    destruct (IH st) as (-> & Hrest). split; [reflexivity | exact Hrest].
Qed.

(** X13. Editor pane.  Over a whole run the editor receives one edit for
    each delta step whose target is EDITOR and whose kind is not
    SET_BROWSER_CONTENT, in script order, with the value of the step as its
    text; every edit is an insertion at one position (the range ends where
    it starts) with [forceMoveMarkers] set.  No other step edits. *)
Theorem runScript_editor_edits (script : DemoScript) :
  map Monaco.editText (edits (snd (runScript script)))
  = valuesWhere isEditorStep (steps script) /\
  Forall insertsAt (edits (snd (runScript script))).
Proof.
  rewrite runScript_events. cbn [edits].
  apply (runSteps_edits (steps script) (Player.initialPlayback script)).
Qed.

Lemma runSteps_from1 l :
  forall st,
    Forall coordinatesFrom1 l ->
    (1 <= Player.lineNumber st)%Z -> (1 <= Player.columnIndex st)%Z ->
    (1 <= Player.lineNumber (stateOf (Player.runSteps l) st))%Z /\
    (1 <= Player.columnIndex (stateOf (Player.runSteps l) st))%Z /\
    Forall startsFrom1 (edits (eventsOf (Player.runSteps l) st)).
Proof.
  induction l as [|[s | d] l IH]; intros st Hl Hline Hcol.
  - repeat split; auto; constructor.
  - inversion Hl as [|? ? Hs Hl']; subst.
    simpl in Hs. destruct Hs as (Hsl & Hsc).
    rewrite eventsOf_runSteps_cons, edits_app, stateOf_runSteps_cons.
    assert (Hline0 : (1 <= Player.nullish (startLineNumber s)
                                          (Player.lineNumber st))%Z)
      by (destruct (startLineNumber s); simpl; auto).
    assert (Hcol0 : (1 <= Player.nullish (startColumnIndex s)
                                         (Player.columnIndex st))%Z)
      by (destruct (startColumnIndex s); simpl; auto).
    set (st1 := stateOf (Player.runStep (Delta s)) st).
    destruct (isEditorStep s) eqn:He.
    + destruct (runStep_editor_edit s st He) as (Hed & Hcur).
      fold st1 in Hcur. unfold cursorOf in Hcur.
      assert (Hafter : (1 <= Player.lineNumber st1 /\
                        1 <= Player.columnIndex st1)%Z).
      { destruct (kind_eqb (kind s) INSERT_NEWLINE);
          injection Hcur as E1 E2; rewrite E1, E2; split; try lia;
          apply roundDouble_from1; lia. }
      destruct (IH st1 Hl' (proj1 Hafter) (proj2 Hafter)) as (H1 & H2 & H3).
      repeat split; auto. rewrite Hed. apply Forall_app. split; [| exact H3].
      constructor; [split; assumption | constructor].
    + destruct (runStep_delta_effects s st) as (_ & _ & _ & _ & _ & Hn).
      destruct (Hn He) as (Hed & Hcur). fold st1 in Hcur.
      unfold cursorOf in Hcur. inversion Hcur as [[E1 E2]].
      rewrite <- E1 in Hline. rewrite <- E2 in Hcol.
      destruct (IH st1 Hl' Hline Hcol) as (H1 & H2 & H3).
      repeat split; auto. rewrite Hed. exact H3.
  - inversion Hl as [|? ? _ Hl']; subst.
    rewrite eventsOf_runSteps_cons, edits_app, stateOf_runSteps_cons.
    destruct (runStep_sleep_effects d st) as (-> & ->).
    apply (IH st Hl' Hline Hcol).
Qed.

(** X14. Positions stay 1-indexed.  When every coordinate the steps of a
    script give is 1 or more, the cursor ends a run at a line and a column
    of 1 or more, and every edit of the run is at a line and a column of 1
    or more. *)
Theorem runScript_positions_from_1 (script : DemoScript) :
  Forall coordinatesFrom1 (steps script) ->
  (1 <= Player.lineNumber (fst (runScript script)))%Z /\
  (1 <= Player.columnIndex (fst (runScript script)))%Z /\
  Forall startsFrom1 (edits (snd (runScript script))).
Proof.
  intros H. rewrite runScript_events, runScript_playbackAfter. cbn [edits].
  apply (runSteps_from1 (steps script) (Player.initialPlayback script) H);
    simpl; lia.
Qed.

Lemma runScript_positions_from_1_witness :
  let script :=
    mkDemoScript
      [Delta (mkDeltaStep INSERT_TEXT EDITOR (Some 5%Z) (Some 23%Z) (js "Hi"));
       Sleep 200;
       Delta (mkDeltaStep INSERT_NEWLINE EDITOR None None [LF]);
       Delta (mkDeltaStep INSERT_TEXT REPL None None (js "ok"))]
      [] [] [] (js "python") in
  (1 <= Player.lineNumber (fst (runScript script)))%Z /\
  (1 <= Player.columnIndex (fst (runScript script)))%Z /\
  Forall startsFrom1 (edits (snd (runScript script))).
Proof.
  intros script. apply (runScript_positions_from_1 script).
  repeat constructor; simpl; intros v E; inversion E; subst; lia.
Defined.

Lemma caretAfter_app (a b : jsstring) :
  forall line column,
    caretAfter line column (a ++ b)
    = caretAfter (fst (caretAfter line column a))
                 (snd (caretAfter line column a)) b.
Proof.
  induction a as [|c a IH]; intros line column; [reflexivity |].
  cbn [app caretAfter]. destruct (N.eqb c LF); apply IH.
Qed.

Lemma caretAfter_line (v : jsstring) :
  contains LF v = false ->
  forall line column,
    caretAfter line column v = (line, column + Z.of_nat (length v))%Z.
Proof.
  intros Hv. apply contains_false in Hv.
  induction v as [|c v IH]; intros line column.
  - simpl. f_equal. lia.
  - cbn [caretAfter].
    assert (Hc : N.eqb c LF = false)
      by (apply N.eqb_neq; intros ->; apply Hv; now left).
    rewrite Hc, IH by (intros H; apply Hv; now right).
    f_equal. cbn [length]. lia.
Qed.

Lemma tokenShape_value tgt L R (s : DeltaStep) :
  tokenShape tgt L R s ->
  target s = tgt /\ kind s <> SET_BROWSER_CONTENT /\
  (if kind_eqb (kind s) INSERT_NEWLINE then value s = [LF]
   else contains LF (value s) = false).
Proof.
  intros (Ht & Hs). split; [exact Ht |].
  destruct (kind s); simpl in *.
  - split; [discriminate |].
    destruct Hs as [(n & ->) | (c & -> & Hlf & _)].
    + apply contains_false. exact (LF_not_in_spaces (S n)).
    + apply contains_false. simpl. intuition.
  - split; [discriminate | exact Hs].
  - split; [discriminate | apply Hs].
  - now elim Hs.
Qed.

Lemma caretAfter_bounds (v : jsstring) :
  forall line column,
    (1 <= line)%Z -> (1 <= column)%Z ->
    (1 <= fst (caretAfter line column v)
     <= line + Z.of_nat (length v))%Z /\
    (1 <= snd (caretAfter line column v)
     <= column + Z.of_nat (length v))%Z.
Proof.
  induction v as [|c v IH]; intros line column Hl Hc.
  - simpl. lia.
  - cbn [caretAfter length]. rewrite Nat2Z.inj_succ.
    destruct (N.eqb c LF).
    + specialize (IH (line + 1)%Z 1%Z). lia.
    + specialize (IH line (column + 1)%Z). lia.
Qed.

(** An EDITOR step of the tokenizer moves the cursor as typing its value
    moves the caret, as long as the caret stays within the safe
    integers. *)
Lemma editor_step_caret L R (s : DeltaStep) (st : Player.Playback) :
  tokenShape EDITOR L R s ->
  (1 <= Player.nullish (startLineNumber s) (Player.lineNumber st))%Z ->
  (1 <= Player.nullish (startColumnIndex s) (Player.columnIndex st))%Z ->
  (Player.nullish (startLineNumber s) (Player.lineNumber st)
   + Z.of_nat (length (value s)) < 2 ^ 53)%Z ->
  (Player.nullish (startColumnIndex s) (Player.columnIndex st)
   + Z.of_nat (length (value s)) < 2 ^ 53)%Z ->
  edits (eventsOf (Player.runStep (Delta s)) st)
  = [Monaco.mkEdit 1 1
       (Monaco.mkRange
          (Player.nullish (startLineNumber s) (Player.lineNumber st))
          (Player.nullish (startColumnIndex s) (Player.columnIndex st))
          (Player.nullish (startLineNumber s) (Player.lineNumber st))
          (Player.nullish (startColumnIndex s) (Player.columnIndex st)))
       (value s) true] /\
  cursorOf (stateOf (Player.runStep (Delta s)) st)
  = caretAfter (Player.nullish (startLineNumber s) (Player.lineNumber st))
               (Player.nullish (startColumnIndex s) (Player.columnIndex st))
               (value s).
Proof.
  intros Hs Hl1 Hc1 Hl2 Hc2.
  apply tokenShape_value in Hs. destruct Hs as (Ht & Hk & Hv).
  assert (He : isEditorStep s = true) by (apply isEditorStep_true; auto).
  destruct (runStep_editor_edit s st He) as (Hed & Hcur).
  split; [exact Hed |]. rewrite Hcur.
  destruct (kind_eqb (kind s) INSERT_NEWLINE).
  - rewrite Hv in *. cbn [length] in Hl2.
    rewrite jsAdd_safe by (apply isSafeInteger_true; lia). reflexivity.
  - rewrite jsAdd_safe by (apply isSafeInteger_true; lia).
    symmetry. now apply caretAfter_line.
Qed.

Lemma typing_caret L R (l : list DeltaStep) :
  Forall (fun s => tokenShape EDITOR L R s /\
                   startLineNumber s = None /\ startColumnIndex s = None) l ->
  forall st,
    (1 <= Player.lineNumber st)%Z -> (1 <= Player.columnIndex st)%Z ->
    (Player.lineNumber st + Z.of_nat (length (concat (map value l)))
     < 2 ^ 53)%Z ->
    (Player.columnIndex st + Z.of_nat (length (concat (map value l)))
     < 2 ^ 53)%Z ->
    cursorOf (stateOf (Player.runSteps (map Delta l)) st)
    = caretAfter (Player.lineNumber st) (Player.columnIndex st)
                 (concat (map value l)) /\
    map Monaco.editText (edits (eventsOf (Player.runSteps (map Delta l)) st))
    = map value l.
Proof.
  induction 1 as [|s l (Hs & Hl & Hc) _ IH]; intros st H1 H2 H3 H4.
  - split; reflexivity.
  - cbn [map concat] in *.
    rewrite length_app, Nat2Z.inj_add in H3, H4.
    rewrite stateOf_runSteps_cons, eventsOf_runSteps_cons, edits_app, map_app.
    set (st1 := stateOf (Player.runStep (Delta s)) st).
    pose proof (editor_step_caret L R s st Hs) as Hstep.
    rewrite Hl, Hc in Hstep. cbn [Player.nullish] in Hstep.
    destruct Hstep as (Hed & Hcur); [lia | lia | lia | lia |].
    fold st1 in Hcur.
    pose proof (caretAfter_bounds (value s) _ _ H1 H2) as Hb.
    rewrite <- Hcur in Hb. unfold cursorOf in Hb. cbn [fst snd] in Hb.
    destruct (IH st1) as (-> & ->); [lia | lia | lia | lia |].
    rewrite Hed, caretAfter_app, <- Hcur. split; reflexivity.
Qed.

(** X15. Typing into the editor.  Playing the steps [stepsForText] returns
    for a non-empty text with target EDITOR moves the cursor to where the
    caret of an editor stands after the inserted text (the values of the
    steps, in order) is typed at the start position: each newline starts a
    new line at column 1, every other character moves one column on.  The
    start position is the one given to [stepsForText], each coordinate
    taken from the cursor when it is not given; its line and its column are
    1 or more, and each of them plus the length of the text is below 2^53,
    so that the caret stays within the safe integers.  The edits carry the
    values in order; and the inserted text is the text itself when the text
    has no left delimiter. *)
Theorem typing_moves_caret
        (text : jsstring) (startLine startColumn : option Z)
        (pasteDelimiters : option (list jsstring))
        (produced : list DeltaStep) (st : Player.Playback) :
  stepsForText text EDITOR startLine startColumn pasteDelimiters
  = Returned produced ->
  text <> [] ->
  (1 <= Player.nullish startLine (Player.lineNumber st))%Z ->
  (1 <= Player.nullish startColumn (Player.columnIndex st))%Z ->
  (Player.nullish startLine (Player.lineNumber st)
   + Z.of_nat (length text) < 2 ^ 53)%Z ->
  (Player.nullish startColumn (Player.columnIndex st)
   + Z.of_nat (length text) < 2 ^ 53)%Z ->
  cursorOf (stateOf (Player.runSteps (map Delta produced)) st)
  = caretAfter (Player.nullish startLine (Player.lineNumber st))
               (Player.nullish startColumn (Player.columnIndex st))
               (concat (map value produced)) /\
  map Monaco.editText
      (edits (eventsOf (Player.runSteps (map Delta produced)) st))
  = map value produced /\
  (containsDelimiter (leftDelimiter pasteDelimiters) text = false ->
   concat (map value produced) = text).
Proof.
  intros E Hne Hl1 Hc1 Hl2 Hc2. apply stepsForText_Returned_Tokens in E.
  destruct E as (raw & Hraw & ->).
  set (L := leftDelimiter pasteDelimiters) in *.
  set (R := rightDelimiter pasteDelimiters) in *.
  pose proof (Tokens_shape EDITOR L R text (Returned raw) Hraw raw eq_refl)
    as Hshape.
  pose proof (TokenizerFacts.Tokens_pushed EDITOR L R text (Returned raw) Hraw
                raw eq_refl) as Hpushed.
  pose proof (Tokens_values_length EDITOR L R text (Returned raw) Hraw
                raw eq_refl) as Hlen.
  assert (Hnil : raw <> []).
  { intros ->.
    destruct (Tokens_length EDITOR L R text (Returned []) Hraw [] eq_refl)
      as (_ & Hempty).
    apply Hne, Hempty. reflexivity. }
  destruct raw as [|first rest]; [now elim Hnil |].
  inversion Hshape as [|? ? Hfirst Hrest]; subst.
  inversion Hpushed as [|? ? _ Hrest']; subst.
  cbn [map concat] in Hlen. rewrite length_app in Hlen.
  set (first' := mkDeltaStep (kind first) (target first) startLine
                             startColumn (value first)).
  set (st1 := stateOf (Player.runStep (Delta first')) st).
  assert (Hfirst' : tokenShape EDITOR L R first') by exact Hfirst.
  pose proof (editor_step_caret L R first' st Hfirst') as Hstep.
  cbn [first' startLineNumber startColumnIndex value] in Hstep.
  destruct Hstep as (Hed & Hcur); [lia | lia | lia | lia |].
  fold st1 in Hcur.
  pose proof (caretAfter_bounds (value first) _ _ Hl1 Hc1) as Hb.
  rewrite <- Hcur in Hb. unfold cursorOf in Hb. cbn [fst snd] in Hb.
  assert (Hall : Forall (fun s => tokenShape EDITOR L R s /\
                                  startLineNumber s = None /\
                                  startColumnIndex s = None) rest).
  { apply Forall_forall. intros s Hs.
    rewrite Forall_forall in Hrest, Hrest'.
    split; [now apply Hrest | apply (Hrest' s Hs)]. }
  destruct (typing_caret L R rest Hall st1) as (Hcur1 & Hed1);
    [lia | lia | lia | lia |].
  split; [| split].
  - cbn [Tokenizer.setStart map concat].
    rewrite stateOf_runSteps_cons. fold first' st1.
    rewrite Hcur1, caretAfter_app. change (value first') with (value first).
    rewrite <- Hcur. reflexivity.
  - cbn [Tokenizer.setStart map].
    rewrite eventsOf_runSteps_cons, edits_app, map_app. fold first' st1.
    rewrite Hed, Hed1. reflexivity.
  - intros Hno. rewrite setStart_values.
    destruct (Tokens_concat EDITOR L R text (Returned (first :: rest)) Hraw Hno)
      as (new & Enew & Hnew).
    injection Enew as <-. exact Hnew.
Qed.

Lemma typing_moves_caret_witness :
  let st := Player.mkPlayback 1 1 [] None Monaco.NoIds in
  let produced :=
    [mkDeltaStep INSERT_TEXT EDITOR (Some 5%Z) (Some 23%Z) (js "a");
     mkDeltaStep INSERT_TEXT EDITOR None None (js "b");
     mkDeltaStep INSERT_NEWLINE EDITOR None None [LF];
     mkDeltaStep INSERT_TEXT EDITOR None None (repeat SPACE 2);
     mkDeltaStep INSERT_TEXT EDITOR None None (js "c")] in
  cursorOf (stateOf (Player.runSteps (map Delta produced)) st) = (6, 4)%Z.
Proof.
  intros st produced.
  apply (typing_moves_caret (js "ab" ++ [LF] ++ js "  c") (Some 5%Z)
           (Some 23%Z) None produced st).
  - reflexivity.
  - discriminate.
  - vm_compute. discriminate.
  - vm_compute. discriminate.
  - vm_compute. reflexivity.
  - vm_compute. reflexivity.
Defined.

Lemma valuesWhere_all (p : DeltaStep -> bool) (l : list DeltaStep) :
  Forall (fun s => p s = true) l ->
  valuesWhere p (map Delta l) = map value l.
Proof.
  induction 1 as [|s l Hs _ IH]; [reflexivity |].
  cbn [map valuesWhere]. rewrite Hs, IH. reflexivity.
Qed.

Lemma valuesWhere_none (p : DeltaStep -> bool) (l : list DeltaStep) :
  Forall (fun s => p s = false) l ->
  valuesWhere p (map Delta l) = [].
Proof.
  induction 1 as [|s l Hs _ IH]; [reflexivity |].
  cbn [map valuesWhere]. rewrite Hs, IH. reflexivity.
Qed.

Lemma tokenShape_isReplStep tgt L R (s : DeltaStep) :
  tgt <> EDITOR -> tokenShape tgt L R s ->
  isReplStep s = true /\ isEditorStep s = false.
Proof.
  intros Htgt Hs. apply tokenShape_value in Hs.
  destruct Hs as (Ht & Hk & _).
  unfold isReplStep, isEditorStep, isBrowserStep. rewrite Ht.
  destruct (kind s), tgt; simpl; split; congruence.
Qed.

(** X16. Typing into the REPL.  Playing the steps [stepsForText] returns
    for a target other than EDITOR appends the inserted text (the values
    of the steps, in order) to the REPL buffer: the pane is given the
    buffer after each step, the editor gets no edit, and the inserted text
    is the text itself when the text has no left delimiter.  This holds
    for the target BROWSER as for REPL. *)
Theorem typing_fills_repl
        (text : jsstring) (tgt : StepTarget) (startLine startColumn : option Z)
        (pasteDelimiters : option (list jsstring))
        (produced : list DeltaStep) (st : Player.Playback) :
  stepsForText text tgt startLine startColumn pasteDelimiters
  = Returned produced ->
  tgt <> EDITOR ->
  Player.newRepl (stateOf (Player.runSteps (map Delta produced)) st)
  = Player.newRepl st ++ concat (map value produced) /\
  replContents (eventsOf (Player.runSteps (map Delta produced)) st)
  = buffers (Player.newRepl st) (map value produced) /\
  edits (eventsOf (Player.runSteps (map Delta produced)) st) = [] /\
  (containsDelimiter (leftDelimiter pasteDelimiters) text = false ->
   concat (map value produced) = text).
Proof.
  intros E Htgt.
  destruct (stepsForText_Returned_Tokens _ _ _ _ _ _ E) as (raw & Hraw & ->).
  set (L := leftDelimiter pasteDelimiters) in *.
  set (R := rightDelimiter pasteDelimiters) in *.
  set (produced := Tokenizer.setStart startLine startColumn raw).
  assert (Hshape : Forall (tokenShape tgt L R) produced).
  { apply setStart_Forall; [intros s Hs; exact Hs |].
    apply (Tokens_shape tgt L R text (Returned raw) Hraw raw eq_refl). }
  assert (Hrepl : Forall (fun s => isReplStep s = true) produced).
  { eapply Forall_impl; [| exact Hshape].
    intros s Hs. apply (tokenShape_isReplStep tgt L R s Htgt Hs). }
  assert (Hed : Forall (fun s => isEditorStep s = false) produced).
  { eapply Forall_impl; [| exact Hshape].
    intros s Hs. apply (tokenShape_isReplStep tgt L R s Htgt Hs). }
  destruct (runSteps_repl (map Delta produced) st) as (Hc & Hn).
  rewrite (valuesWhere_all isReplStep produced Hrepl) in Hc, Hn.
  split; [exact Hn | split; [exact Hc | split]].
  - destruct (runSteps_edits (map Delta produced) st) as (Hmap & _).
    rewrite (valuesWhere_none isEditorStep produced Hed) in Hmap.
    now apply map_eq_nil in Hmap.
  - intros Hno. unfold produced. rewrite setStart_values.
    destruct (Tokens_concat tgt L R text (Returned raw) Hraw Hno)
      as (new & Enew & Hnew).
    injection Enew as <-. exact Hnew.
Qed.

Lemma typing_fills_repl_witness :
  let st := Player.mkPlayback 1 1 (js "$ ") None Monaco.NoIds in
  let produced :=
    [mkDeltaStep INSERT_TEXT REPL (Some 1%Z) (Some 1%Z) (js "l");
     mkDeltaStep INSERT_TEXT REPL None None (js "s");
     mkDeltaStep INSERT_TEXT REPL None None [SPACE];
     mkDeltaStep INSERT_PASTED_TEXT REPL None None (js "-la")] in
  Player.newRepl (stateOf (Player.runSteps (map Delta produced)) st)
  = js "$ ls -la".
Proof.
  intros st produced.
  apply (typing_fills_repl (js "ls " ++ [LAQUO] ++ js "-la" ++ [RAQUO]) REPL
           (Some 1%Z) (Some 1%Z) None produced st).
  - reflexivity.
  - discriminate.
Defined.

Lemma runStep_delta_sleep (s : DeltaStep) (st : Player.Playback) :
  (0 <= totalSleep (eventsOf (Player.runStep (Delta s)) st) <= 800)%Z.
Proof.
  pose proof (lookupDelays_cases s) as Hd.
  destruct s as [k t sl sc v]. destruct st as [l c repl cur decos].
  unfold stateOf, eventsOf, Player.runStep, Player.editorInsert in *.
  cbn [kind target startLineNumber startColumnIndex value
       Player.lineNumber Player.columnIndex Player.newRepl
       Player.currentTarget Player.decorations] in *.
  destruct k;
    destruct Hd as [(E & _) | [E | [E | [E | E]]]];
    try rewrite E;
    try destruct (negb (_ =? _)%nat);
    destruct t; destruct cur as [[]|];
    vm_compute; split; discriminate.
Qed.

Lemma runSteps_sleep l :
  forall st,
    (sleepDurations l <= totalSleep (eventsOf (Player.runSteps l) st)
     <= sleepDurations l + 800 * deltaCount l)%Z.
Proof.
  induction l as [|[s | d] l IH]; intros st.
  - simpl. lia.
  - rewrite eventsOf_runSteps_cons, totalSleep_app.
    pose proof (runStep_delta_sleep s st) as Hs.
    pose proof (IH (stateOf (Player.runStep (Delta s)) st)) as Hl.
    cbn [sleepDurations deltaCount]. lia.
  - rewrite eventsOf_runSteps_cons, totalSleep_app.
    destruct (runStep_sleep_effects d st) as (-> & ->).
    pose proof (IH st) as Hl.
    cbn [sleepDurations deltaCount totalSleep]. lia.
Qed.

(** X17. Length of a run.  The time a run sleeps is at least 300 ms plus
    the durations of the SLEEP steps, and at most that plus 800 ms for each
    delta step (100 ms to switch the pane and 700 ms to swap the browser
    content, at most). *)
Theorem runScript_duration (script : DemoScript) :
  (300 + sleepDurations (steps script)
   <= totalSleep (snd (runScript script))
   <= 300 + sleepDurations (steps script)
      + 800 * deltaCount (steps script))%Z.
Proof.
  rewrite runScript_events. cbn [totalSleep].
  pose proof (runSteps_sleep (steps script) (Player.initialPlayback script)).
  lia.
Qed.

Lemma retarget_cons_step t1 t2 k v r :
  retarget t2 (cons_step (pushed t1 k v) r)
  = cons_step (pushed t2 k v) (retarget t2 r).
Proof. destruct r; reflexivity. Qed.

Lemma Tokens_retarget t1 t2 L R l r :
  Tokens t1 L R l r -> Tokens t2 L R l (retarget t2 r).
Proof.
  induction 1; try rewrite retarget_cons_step; now constructor.
Qed.

(** X18. Target and start position only label the steps.  For every
    target and start position, [stepsForText] gives what it gives for
    EDITOR without a start position, with the target written into every
    step and the start position into the first; it throws for the same
    texts. *)
Theorem stepsForText_labels
        (text : jsstring) (tgt : StepTarget) (startLine startColumn : option Z)
        (pasteDelimiters : option (list jsstring)) :
  stepsForText text tgt startLine startColumn pasteDelimiters
  = assignStart startLine startColumn
      (retarget tgt (stepsForText text EDITOR None None pasteDelimiters)).
Proof.
  destruct (TokenizerFacts.Tokens_total EDITOR
              (leftDelimiter pasteDelimiters)
              (rightDelimiter pasteDelimiters) text) as (r & Hr).
  rewrite (stepsForText_outcome text EDITOR pasteDelimiters r Hr).
  apply stepsForText_Tokens.
  apply (Tokens_retarget EDITOR tgt _ _ text r Hr).
Qed.

(** The run of the playground script: where the cursor ends, what the REPL
    and the browser panes were given last, and the panes made active. *)
Example playground_run :
  match playgroundScript with
  | Returned script =>
      cursorOf (fst (runScript script)) = (5, 35)%Z /\
      Player.newRepl (fst (runScript script))
      = js "./deploywebsite" ++ [LF] ++ js "> Website updated!" /\
      browserContents (snd (runScript script))
      = [[]; js "Hello World! - Hi there!"] /\
      targetSignals (snd (runScript script)) = [EDITOR; REPL; BROWSER] /\
      length (edits (snd (runScript script))) = 42
  | _ => False
  end.
Proof. vm_compute. repeat split; reflexivity. Qed.

Lemma trimStart_nil (v : jsstring) :
  trimStart v = [] <-> hasVisibleText v = false.
Proof.
  unfold hasVisibleText. induction v as [|c v IH]; simpl; [tauto |].
  destruct (isWhiteSpace c); simpl; [exact IH |].
  split; discriminate.
Qed.

Lemma hasVisibleText_app (a b : jsstring) :
  hasVisibleText (a ++ b) = hasVisibleText a || hasVisibleText b.
Proof. apply existsb_app. Qed.

Lemma hasVisibleText_rev (v : jsstring) :
  hasVisibleText (rev v) = hasVisibleText v.
Proof.
  induction v as [|c v IH]; [reflexivity |].
  cbn [rev]. rewrite hasVisibleText_app, IH.
  unfold hasVisibleText at 2 3. cbn [existsb].
  rewrite orb_false_r. apply orb_comm.
Qed.

Lemma hasVisibleText_trimStart (v : jsstring) :
  hasVisibleText (trimStart v) = hasVisibleText v.
Proof.
  induction v as [|c v IH]; [reflexivity |].
  cbn [trimStart]. destruct (isWhiteSpace c) eqn:Hc; [| reflexivity].
  rewrite IH. unfold hasVisibleText. cbn [existsb]. rewrite Hc. reflexivity.
Qed.

(** The test [step.value.trim().length] succeeds exactly for a value with
    a character that is not white space. *)
Lemma trim_test (v : jsstring) :
  negb (length (trim v) =? 0)%nat = hasVisibleText v.
Proof.
  unfold trim.
  destruct (hasVisibleText v) eqn:Hv.
  - assert (H : trimStart (rev (trimStart v)) <> []).
    { intros H. apply trimStart_nil in H.
      rewrite hasVisibleText_rev, hasVisibleText_trimStart in H. congruence. }
    destruct (trimStart (rev (trimStart v))) as [|c l]; [now elim H |].
    cbn [rev]. rewrite length_app. cbn [length].
    rewrite Nat.add_1_r. reflexivity.
  - apply trimStart_nil in Hv. rewrite Hv. reflexivity.
Qed.

Lemma decorationCalls_app className a b :
  decorationCalls className (a ++ b)
  = decorationCalls className a ++ decorationCalls className b.
Proof.
  induction a as [|[] a IH]; cbn [app decorationCalls];
    try rewrite IH; try reflexivity.
  destruct (installs className new); reflexivity.
Qed.

(** What one delta step asks of the decorations. *)
Lemma runStep_delta_decorations (s : DeltaStep) (st : Player.Playback) :
  let events := eventsOf (Player.runStep (Delta s)) st in
  let st' := stateOf (Player.runStep (Delta s)) st in
  if isEditorStep s then
    (exists d,
       decorationCalls "fake-cursor" events = [(Player.decorations st, [d])] /\
       Player.decorations st' = Monaco.IdsOf [d]) /\
    Forall (fun call => fst call = Monaco.NoIds)
           (decorationCalls "addition" events) /\
    length (decorationCalls "addition" events)
    = (if negb (length (trim (value s)) =? 0)%nat then 1 else 0)
  else
    decorationCalls "fake-cursor" events = [] /\
    decorationCalls "addition" events = [] /\
    Player.decorations st' = Player.decorations st.
Proof.
  destruct s as [k t sl sc v]. destruct st as [l c repl cur decos].
  unfold stateOf, eventsOf, Player.runStep, Player.editorInsert,
    isEditorStep, isBrowserStep.
  cbn [kind target startLineNumber startColumnIndex value
       Player.lineNumber Player.columnIndex Player.newRepl
       Player.currentTarget Player.decorations].
  destruct k;
    try destruct (lookupDelays _) as [[sd|] [ed|]];
    try destruct (negb (_ =? _)%nat);
    destruct t; destruct cur as [[]|];
    cbn;
    first [ repeat split; reflexivity
          | split; [eexists; split; reflexivity
                   | split; [repeat constructor | reflexivity]] ].
Qed.

Lemma last_cons_default {A} (a d : A) (l : list A) :
  last (a :: l) d = last l a.
Proof.
  revert a d. induction l as [|b l IH]; intros a d; [reflexivity |].
  change (last (a :: b :: l) d) with (last (b :: l) d).
  rewrite (IH b d), (IH b a). reflexivity.
Qed.

Lemma runSteps_decorations l :
  forall st,
    map fst (decorationCalls "fake-cursor" (eventsOf (Player.runSteps l) st))
    = firstn
        (length (decorationCalls "fake-cursor"
                   (eventsOf (Player.runSteps l) st)))
        (Player.decorations st
           :: map returnedIds
                (decorationCalls "fake-cursor"
                   (eventsOf (Player.runSteps l) st))) /\
    Player.decorations (stateOf (Player.runSteps l) st)
    = last (map returnedIds
              (decorationCalls "fake-cursor"
                 (eventsOf (Player.runSteps l) st)))
           (Player.decorations st) /\
    length (decorationCalls "fake-cursor" (eventsOf (Player.runSteps l) st))
    = length (valuesWhere isEditorStep l) /\
    Forall (fun call => fst call = Monaco.NoIds)
           (decorationCalls "addition" (eventsOf (Player.runSteps l) st)) /\
    length (decorationCalls "addition" (eventsOf (Player.runSteps l) st))
    = length (valuesWhere isVisibleInsert l).
Proof.
  induction l as [|[s | d] l IH]; intros st.
  - repeat split; constructor.
  - rewrite eventsOf_runSteps_cons, !decorationCalls_app,
      stateOf_runSteps_cons.
    set (st1 := stateOf (Player.runStep (Delta s)) st).
    destruct (IH st1) as (H1 & H2 & H3 & H4 & H5).
    pose proof (runStep_delta_decorations s st) as Hs.
    cbv zeta in Hs. fold st1 in Hs.
    cbn [valuesWhere]. unfold isVisibleInsert at 1.
    destruct (isEditorStep s).
    + destruct Hs as ((deco & Hc & Hd) & Hadd & Hlen).
      rewrite Hc. cbn [app map fst length firstn].
      rewrite Hd in H1, H2.
      change (Monaco.IdsOf [deco])
        with (returnedIds (Player.decorations st, [deco])) in H1, H2.
      split; [f_equal; exact H1 |].
      split; [rewrite last_cons_default; exact H2 |].
      split; [f_equal; exact H3 |].
      split; [apply Forall_app; split; assumption |].
      rewrite length_app, Hlen, H5, trim_test. cbn [andb].
      destruct (hasVisibleText (value s)); reflexivity.
    + destruct Hs as (Hc & Hadd & Hd).
      rewrite Hc, Hadd. cbn [app andb]. rewrite Hd in H1, H2.
      repeat split; assumption.
  - rewrite eventsOf_runSteps_cons, !decorationCalls_app,
      stateOf_runSteps_cons.
    destruct (runStep_sleep_effects d st) as (-> & ->).
    apply (IH st).
Qed.

(** X20. The fake cursor is replaced, the highlights stay.  Over a whole
    run [deltaDecorations] installs one fake cursor for each edit; every
    such call hands over the ids the call before it returned (the first
    hands over none), so the fake cursor of the step before is removed, and
    at the end [decorations] holds the ids of the last one.  An addition
    highlight is installed exactly for the edits whose value has a
    character that is not white space, always with no ids to remove. *)
Theorem runScript_decorations (script : DemoScript) :
  let cursors := decorationCalls "fake-cursor" (snd (runScript script)) in
  let additions := decorationCalls "addition" (snd (runScript script)) in
  map fst cursors
  = firstn (length cursors) (Monaco.NoIds :: map returnedIds cursors) /\
  Player.decorations (fst (runScript script))
  = last (map returnedIds cursors) Monaco.NoIds /\
  length cursors = length (valuesWhere isEditorStep (steps script)) /\
  Forall (fun call => fst call = Monaco.NoIds) additions /\
  length additions = length (valuesWhere isVisibleInsert (steps script)).
Proof.
  rewrite runScript_events, runScript_playbackAfter.
  cbn [decorationCalls].
  apply (runSteps_decorations (steps script) (Player.initialPlayback script)).
Qed.
